(** * A shallow embedding of the Prefect ETL pipelines

    The development follows [complex_pipeline.py] (validation, batch
    loading, incremental loading, the main orchestration loop) and
    [etl_pipeline.py] (the dimensional model build).  Tasks and flows are
    functions in a state-and-exception monad over a [world] that holds the
    object store, the watermark store, the task-result cache, a fault
    oracle for the external collaborators, and the trace of effects
    performed so far. *)

From stdpp Require Import gmap strings list.
From Stdlib Require Import ZArith.
From Equations Require Import Equations.

Open Scope Z_scope.

(** ** Tabular data *)

Inductive value :=
| VNull
| VInt (z : Z)
| VStr (s : string)
| VDate (year month day : Z).

#[global] Instance value_eq_dec : EqDecision value.
Proof. solve_decision. Defined.

(** A pandas data frame: a column index and the rows, each row a dict from
    column name to cell; a cell that is absent reads as null. *)
Record DataFrame := {
  df_columns : list string;
  df_rows : list (gmap string value)
}.

#[global] Instance DataFrame_eq_dec : EqDecision DataFrame.
Proof. solve_decision. Defined.

Definition len (df : DataFrame) : nat := length (df_rows df).

Definition head (n : nat) (df : DataFrame) : DataFrame :=
  {| df_columns := df_columns df; df_rows := take n (df_rows df) |}.

Definition empty_df (df : DataFrame) : bool :=
  match df_rows df, df_columns df with
  | [], _ | _, [] => true
  | _, _ => false
  end.

Definition cell (col : string) (r : gmap string value) : value :=
  default VNull (r !! col).

(** [df[col]]: [None] stands for the [KeyError] of a missing column. *)
Definition column (df : DataFrame) (col : string) : option (list value) :=
  if decide (col ∈ df_columns df) then Some (cell col <$> df_rows df) else None.

Definition isnull (v : value) : bool :=
  match v with VNull => true | _ => false end.

(** Strict order on cells of equal kind; cells of different kinds and
    nulls are unordered. *)
Definition value_ltb (a b : value) : bool :=
  match a, b with
  | VInt x, VInt y => x <? y
  | VStr x, VStr y => String.ltb x y
  | VDate y1 m1 d1, VDate y2 m2 d2 =>
      (y1 <? y2) || ((y1 =? y2) && ((m1 <? m2) || ((m1 =? m2) && (d1 <? d2))))
  | _, _ => false
  end.

Definition value_leb (a b : value) : bool :=
  value_ltb a b || bool_decide (a = b).

(** ** Table configuration ([TableConfig], complex_pipeline.py 22-29) *)

Record TableConfig := {
  name : string;
  pk_columns : list string;
  partition_columns : option (list string);
  incremental_column : option string;
  batch_size : Z
}.

#[global] Instance TableConfig_eq_dec : EqDecision TableConfig.
Proof. solve_decision. Defined.

Definition default_batch_size : Z := 50000.

(** Python truthiness of an [Optional[str]]: [None] and the empty string
    are both falsy. *)
Definition truthy (o : option string) : bool :=
  match o with
  | Some s => negb (String.eqb s "")
  | None => false
  end.

(** ** Results of tasks *)

Record ValidationResult := {
  total_rows : nat;
  missing_pk : bool;
  data_types_match : bool;
  null_check_passed : bool
}.

Definition set_missing_pk (b : bool) (v : ValidationResult) : ValidationResult :=
  {| total_rows := total_rows v; missing_pk := b;
     data_types_match := data_types_match v;
     null_check_passed := null_check_passed v |}.

Record BatchMetrics := { processed : nat; errors : nat }.

#[global] Instance BatchMetrics_eq_dec : EqDecision BatchMetrics.
Proof. solve_decision. Defined.

Definition set_processed (n : nat) (m : BatchMetrics) : BatchMetrics :=
  {| processed := n; errors := errors m |}.

Definition set_errors (n : nat) (m : BatchMetrics) : BatchMetrics :=
  {| processed := processed m; errors := n |}.

(** ** Exceptions *)

Inductive exn :=
| ValueError (msg : string)
| KeyError (key : string)
| InfraError (msg : string)
| TypeError (msg : string).

#[global] Instance exn_eq_dec : EqDecision exn.
Proof. solve_decision. Defined.

(** [repr(s)] of a Python [str].  A string of the model is a Python string
    whose characters have code points below 256, one character each. *)
Definition single_quote : Ascii.ascii := Ascii.ascii_of_nat 39.
Definition double_quote : Ascii.ascii := Ascii.ascii_of_nat 34.
Definition backslash : Ascii.ascii := Ascii.ascii_of_nat 92.

Definition has_char (c : Ascii.ascii) (s : string) : bool :=
  existsb (Ascii.eqb c) (String.list_ascii_of_string s).

(** [str.isprintable] on one character: the ASCII ones from the space to
    the tilde, and the Latin-1 ones but the no-break space and the soft
    hyphen. *)
Definition isprintable (c : Ascii.ascii) : bool :=
  let n := Ascii.nat_of_ascii c in
  ((32 <=? n) && (n <? 127) || (161 <=? n) && negb (n =? 173))%nat.

Definition hex_digit (n : nat) : Ascii.ascii :=
  nth n (String.list_ascii_of_string "0123456789abcdef") Ascii.zero.

Definition repr_char (quote c : Ascii.ascii) : string :=
  let n := Ascii.nat_of_ascii c in
  if Ascii.eqb c quote || Ascii.eqb c backslash then String backslash (String c EmptyString)
  else if (n =? 9)%nat then String backslash "t"
  else if (n =? 10)%nat then String backslash "n"
  else if (n =? 13)%nat then String backslash "r"
  else if isprintable c then String c EmptyString
  else String backslash
         (String.append "x" (String (hex_digit (n / 16)) (String (hex_digit (n mod 16))
                                                              EmptyString))).

(** The quote is the single one, unless the string has single quotes and
    no double quote. *)
Definition repr (s : string) : string :=
  let quote := if has_char single_quote s && negb (has_char double_quote s)
               then double_quote else single_quote in
  String quote
    (String.append (String.concat "" (repr_char quote <$> String.list_ascii_of_string s))
       (String quote EmptyString)).

(** [str(e)]: the message of the exception; for a [KeyError], the [repr]
    of the key. *)
Definition str (e : exn) : string :=
  match e with
  | ValueError m | InfraError m | TypeError m => m
  | KeyError k => repr k
  end.

(** ** SQL statements sent to the warehouse (etl_pipeline.py)

    Statements are kept structured: the table they truncate, create or
    fill, and the tables an insert-select reads. *)

Inductive sql :=
| CreateTableIfNotExists (database schema table : string)
| Truncate (database schema table : string)
| InsertSelect (database schema table : string) (reads : list (string * string * string)).

(** A query text with the placeholders [{raw_db}.{raw_schema}] and
    [{analytics_db}.{analytics_schema}] still open: the table it inserts
    into (always an analytics table) and the tables it selects from. *)
Inductive source_table :=
| RawTable (table : string)
| AnalyticsTable (table : string).

Record query_template := {
  insert_into : string;
  select_from : list source_table
}.

#[global] Instance sql_eq_dec : EqDecision sql.
Proof. solve_decision. Defined.

#[global] Instance source_table_eq_dec : EqDecision source_table.
Proof. solve_decision. Defined.

#[global] Instance query_template_eq_dec : EqDecision query_template.
Proof. solve_decision. Defined.

(** [query.format(raw_db=..., raw_schema=..., analytics_db=..., analytics_schema=...)] *)
Definition format_query (q : query_template)
    (raw_db raw_schema analytics_db analytics_schema : string) : sql :=
  InsertSelect analytics_db analytics_schema (insert_into q)
    ((λ t, match t with
           | RawTable n => (raw_db, raw_schema, n)
           | AnalyticsTable n => (analytics_db, analytics_schema, n)
           end) <$> select_from q).

(** ** Effects *)

(** The fully-resolved arguments of a task call. *)
Inductive task_args :=
| ArgsValidate (s3_path : string) (table_config : TableConfig) (s3_bucket : string)
| ArgsBatch (batch_df : DataFrame) (table_config : TableConfig) (connector : string)
| ArgsConnector (connector : string)
| ArgsDimension (connector table_name : string) (transformation_query : query_template).

(** States a task run goes through in the Prefect engine. *)
Inductive run_state :=
| Running
| AwaitingRetry (delay_seconds : Z)
| Completed
| FailedState
| Cached.

Inductive event :=
| EvLog (level msg : string)
| EvDownload (s3_bucket path : string)
| EvArtifact (key : string)
| EvConnect (connector : string)
| EvClose (connector : string)
| EvUpsert (table : string) (batch_df : DataFrame)
| EvEmitMetrics (table : string) (m : BatchMetrics)
| EvGetWatermark (table col : string)
| EvExecute (stmt : sql)
| EvSubmit (key : string) (args : task_args)
| EvTask (key : string) (args : task_args) (st : run_state).

#[global] Instance task_args_eq_dec : EqDecision task_args.
Proof. solve_decision. Defined.

#[global] Instance run_state_eq_dec : EqDecision run_state.
Proof. solve_decision. Defined.

#[global] Instance event_eq_dec : EqDecision event.
Proof. solve_decision. Defined.

(** What the result cache can hold. *)
Inductive cached :=
| CNone
| CValidation (v : ValidationResult)
| CMetrics (m : BatchMetrics).

(** The world a run acts on.  [fault e n] tells whether the external
    operation [e], attempted when [n] effects have already been performed,
    raises. *)
Record world := {
  s3 : gmap string DataFrame;
  watermarks : gmap (string * string) value;
  cache : gmap string cached;
  task_input_hash : string → task_args → string;
  fault : event → nat → bool;
  trace : list event
}.

Definition log (e : event) (w : world) : world :=
  {| s3 := s3 w; watermarks := watermarks w; cache := cache w;
     task_input_hash := task_input_hash w; fault := fault w;
     trace := trace w ++ [e] |}.

Definition store_result (k : string) (c : cached) (w : world) : world :=
  {| s3 := s3 w; watermarks := watermarks w; cache := <[k := c]> (cache w);
     task_input_hash := task_input_hash w; fault := fault w;
     trace := trace w |}.

(** ** The state-and-exception monad *)

Definition M (A : Type) : Type := world → (exn + A) * world.

#[global] Instance M_ret : MRet M := λ A a w, (inr a, w).

#[global] Instance M_bind : MBind M := λ A B f m w,
  match m w with
  | (inl e, w') => (inl e, w')
  | (inr a, w') => f a w'
  end.

Definition raise {A} (e : exn) : M A := λ w, (inl e, w).

(** [raise obj] for an object that is not an exception: Python raises a
    [TypeError] in its place, and the object is dropped. *)
Definition raise_object {A B} (obj : B) : M A :=
  raise (TypeError "exceptions must derive from BaseException").

(** [try: body except Exception as e: handler e] *)
Definition try_except {A} (body : M A) (handler : exn → M A) : M A := λ w,
  match body w with
  | (inl e, w') => handler e w'
  | (inr a, w') => (inr a, w')
  end.

(** [try: body finally: cleanup] *)
Definition try_finally {A} (body : M A) (cleanup : M unit) : M A := λ w,
  match body w with
  | (r, w') =>
      match cleanup w' with
      | (inl e, w'') => (inl e, w'')
      | (inr _, w'') => (r, w'')
      end
  end.

(** An effect that cannot fail (logging). *)
Definition emit (e : event) : M unit := λ w, (inr (), log e w).

(** An operation of an external collaborator: it is recorded, and raises
    when the fault oracle says so. *)
Definition perform (e : event) : M unit := λ w,
  if fault w e (length (trace w))
  then (inl (InfraError "external operation failed"), log e w)
  else (inr (), log e w).

(** Reading the world: the stores, not the trace. *)
Definition inspect {A} (f : world → exn + A) : M A := λ w, (f w, w).

Fixpoint for_each {A} (xs : list A) (body : A → M unit) : M unit :=
  match xs with
  | [] => mret ()
  | x :: rest => body x ;; for_each rest body
  end.

(** ** The task engine

    What the [@task] decorator of Prefect adds around a task body: the
    options given at the decoration site, the result cache keyed by
    [task_input_hash], and the retry loop. *)

Module Prefect.

Record task_options := {
  task_key : string;
  retries : nat;
  retry_delay_seconds : option (nat → list Z);
  cache_key_fn : bool
}.

(** [exponential_backoff(backoff_factor)]: the callable that maps the number
    of retries to the list of delays. *)
Definition exponential_backoff (backoff_factor : Z) : nat → list Z := λ retries,
  (λ r, backoff_factor * Z.max 0 (2 ^ Z.of_nat r)) <$> seq 0 (Nat.min retries 50).

(** The delay the engine waits after the failed run number [run_count]
    (counted from 1): the entry of the delay list at that position, the last
    entry past its end, and no delay when none is configured. *)
Definition retry_delay (opts : task_options) (run_count : nat) : Z :=
  match retry_delay_seconds opts with
  | None => 0
  | Some f =>
      let delays := f (retries opts) in
      default 0 (delays !! Nat.min (run_count - 1) (length delays - 1))
  end.

(** The retry loop.  [retries] counts the runs after the first one: a task
    declared with [retries=3] runs at most four times.  The loop returns the
    outcome, the number of runs of the body and the world reached. *)
Fixpoint run_attempts {A} (opts : task_options) (args : task_args) (body : M A)
    (retries_left run_count : nat) (w : world) : (exn + A) * nat * world :=
  match body (log (EvTask (task_key opts) args Running) w) with
  | (inr a, w') => (inr a, run_count, log (EvTask (task_key opts) args Completed) w')
  | (inl e, w') =>
      match retries_left with
      | O => (inl e, run_count, log (EvTask (task_key opts) args FailedState) w')
      | S n =>
          run_attempts opts args body n (S run_count)
            (log (EvTask (task_key opts) args (AwaitingRetry (retry_delay opts run_count))) w')
      end
  end.

Definition run_task {A} (opts : task_options) (args : task_args) (body : M A) : M A := λ w,
  let '(r, _, w') := run_attempts opts args body (retries opts) 1 w in (r, w').

(** [prefect.states.State], as far as a flow sees it. *)
Record State := {
  state_type : run_state;
  state_message : string
}.

(** [prefect.states.Failed(message=...)] is a function that builds the
    [State] of a failed run.  It is not an exception class. *)
Definition Failed (message : string) : State :=
  {| state_type := FailedState; state_message := message |}.

Class Cacheable (A : Type) := {
  to_cached : A → cached;
  of_cached : cached → option A
}.

#[global] Instance cacheable_unit : Cacheable unit := {|
  to_cached := λ _, CNone;
  of_cached := λ c, match c with CNone => Some () | _ => None end
|}.

#[global] Instance cacheable_validation : Cacheable ValidationResult := {|
  to_cached := CValidation;
  of_cached := λ c, match c with CValidation v => Some v | _ => None end
|}.

#[global] Instance cacheable_metrics : Cacheable BatchMetrics := {|
  to_cached := CMetrics;
  of_cached := λ c, match c with CMetrics m => Some m | _ => None end
|}.

(** Calling a task from a flow.  With a cache key function, a result stored
    under the fingerprint of the call is returned without running the body;
    otherwise, and on a miss, the body goes through the retry loop, and the
    result of a successful run is stored.  A failed task raises in the
    calling flow. *)
Definition call_task {A} `{Cacheable A} (opts : task_options) (args : task_args)
    (body : M A) : M A := λ w,
  if cache_key_fn opts then
    let k := task_input_hash w (task_key opts) args in
    match cache w !! k ≫= of_cached with
    | Some a => (inr a, log (EvTask (task_key opts) args Cached) w)
    | None =>
        match run_task opts args body w with
        | (inr a, w') => (inr a, store_result k (to_cached a) w')
        | (inl e, w') => (inl e, w')
        end
    end
  else run_task opts args body w.

End Prefect.

Import Prefect.

(** ** External collaborators *)

(** [s3_bucket.download_object(path)] followed by [pq.read_table]. *)
Definition download_object (s3_bucket path : string) : M DataFrame :=
  perform (EvDownload s3_bucket path) ;;
  inspect (λ w, match s3 w !! path with
                | Some table => inr table
                | None => inl (InfraError ("no such object: " ++ path))
                end).

Definition create_markdown_artifact (key : string) : M unit :=
  perform (EvArtifact key).

(** ** Chunking *)

(** Modelled from the spec: [get_data_iterator] is called by [main_flow] but
    is not in the sources.  The spec has the loader partition the dataset
    into consecutive chunks of at most [batch_size] rows, in the original
    order.  The data model makes [batch_size] positive; for 0 nothing is
    yielded. *)
Equations? chunks {A} (b : nat) (l : list A) : list (list A) by wf (length l) lt :=
  chunks b [] := [];
  chunks O (x :: l) := [];
  chunks (S b) (x :: l) := (x :: take b l) :: chunks (S b) (drop b l).
Proof. rewrite length_drop. simpl. lia. Qed.

Definition chunk_frames (b : nat) (df : DataFrame) : list DataFrame :=
  (λ rows, {| df_columns := df_columns df; df_rows := rows |}) <$> chunks b (df_rows df).

(** ** complex_pipeline.py *)

Module ComplexPipeline.

Section Pipeline.

(** [transform_batch] is called by [process_data_batch] but is not in the
    sources: the table-specific transformation is a parameter. *)
Variable transform_batch : DataFrame → DataFrame.

Definition validate_source_data_options : task_options := {|
  task_key := "validate_source_data";
  retries := 3;
  retry_delay_seconds := Some (exponential_backoff 30);
  cache_key_fn := true
|}.

Definition process_data_batch_options : task_options := {|
  task_key := "process_data_batch";
  retries := 3;
  retry_delay_seconds := None;
  cache_key_fn := false
|}.

(** The loop over [table_config.pk_columns] (lines 78-81), threading the
    [validation_results] dict it updates. *)
Fixpoint validate_primary_keys (df_sample : DataFrame) (pks : list string)
    (validation_results : ValidationResult) : M ValidationResult :=
  match pks with
  | [] => mret validation_results
  | pk :: rest =>
      match column df_sample pk with
      | None => raise (KeyError pk)
      | Some col =>
          if existsb isnull col then
            emit (EvLog "error" ("Found null values in primary key column: " ++ pk)) ;;
            validate_primary_keys df_sample rest (set_missing_pk true validation_results)
          else validate_primary_keys df_sample rest validation_results
      end
  end.

(** The body of [validate_source_data] (lines 62-99). *)
Definition validate_source_data_body (s3_path : string) (table_config : TableConfig)
    (s3_bucket : string) : M ValidationResult :=
  try_except
    (table ← download_object s3_bucket s3_path;
     let df_sample := head 1000 table in
     let validation_results :=
       {| total_rows := len table; missing_pk := false;
          data_types_match := true; null_check_passed := true |} in
     validation_results ← validate_primary_keys df_sample (pk_columns table_config)
                            validation_results;
     create_markdown_artifact ("validation-" ++ name table_config) ;;
     mret validation_results)
    (λ e, emit (EvLog "error" ("Validation failed: " ++ str e)) ;;
          raise_object (Failed (str e))).

Definition validate_source_data (s3_path : string) (table_config : TableConfig)
    (s3_bucket : string) : M ValidationResult :=
  call_task validate_source_data_options (ArgsValidate s3_path table_config s3_bucket)
    (validate_source_data_body s3_path table_config s3_bucket).

(** [async with snowflake_connection(connector) as conn] (lines 38-45). *)
Definition snowflake_connection {A} (connector : string) (body : M A) : M A :=
  perform (EvConnect connector) ;;
  try_finally body (perform (EvClose connector)).

(** Modelled from the spec: [upsert_to_snowflake] is not in the sources; the
    warehouse client's [upsert(table, rows, key_columns)] is an external
    operation reporting success. *)
Definition upsert_to_snowflake (batch_df : DataFrame) (table_config : TableConfig) : M bool :=
  perform (EvUpsert (name table_config) batch_df) ;; mret true.

(** Modelled from the spec: [emit_batch_metrics] is not in the sources; it
    hands the metrics of the batch to the reporting collaborator. *)
Definition emit_batch_metrics (metrics : BatchMetrics) (table : string) : M unit :=
  perform (EvEmitMetrics table metrics).

(** The body of [process_data_batch] (lines 113-139).  The [errors] entry
    written in the handler lives in the local dict, which is dropped when
    the handler raises. *)
Definition process_data_batch_body (batch_df : DataFrame) (table_config : TableConfig)
    (connector : string) : M BatchMetrics :=
  let metrics := {| processed := 0; errors := 0 |} in
  snowflake_connection connector
    (let batch_df := transform_batch batch_df in
     try_except
       (success ← upsert_to_snowflake batch_df table_config;
        let metrics := set_processed (len batch_df) metrics in
        emit_batch_metrics metrics (name table_config) ;;
        mret metrics)
       (λ e, let metrics := set_errors (len batch_df) metrics in
             emit (EvLog "error" ("Batch processing failed: " ++ str e)) ;;
             raise_object (Failed (str e)))).

Definition process_data_batch (batch_df : DataFrame) (table_config : TableConfig)
    (connector : string) : M BatchMetrics :=
  call_task process_data_batch_options (ArgsBatch batch_df table_config connector)
    (process_data_batch_body batch_df table_config connector).

(** [data_quality_flow] (lines 144-168). *)
Definition data_quality_flow (table_config : TableConfig)
    (validation_results : ValidationResult) : M unit :=
  if negb (null_check_passed validation_results) then
    emit (EvLog "warning" ("Data quality issues detected for " ++ name table_config)) ;;
    create_markdown_artifact ("dq-report-" ++ name table_config)
  else mret ().

(** Where the landed data of a table is read from by the two helpers
    below. *)
Definition source_path (table_config : TableConfig) : string :=
  "raw/" ++ name table_config.

(** Modelled from the spec: [get_last_processed_value] is not in the
    sources.  It reads the Watermark Store at (table, incremental column);
    [None] is the first run, before any watermark exists. *)
Definition get_last_processed_value (connector : string) (table_config : TableConfig)
    : M (option value) :=
  let col := default "" (incremental_column table_config) in
  perform (EvGetWatermark (name table_config) col) ;;
  inspect (λ w, inr (watermarks w !! (name table_config, col))).

Definition exceeds (last_processed : option value) (v : value) : bool :=
  match last_processed with
  | None => true
  | Some last => value_ltb last v
  end.

(** Modelled from the spec: [load_incremental_data] is not in the sources.
    It keeps the rows of the source whose incremental column exceeds the
    watermark, in their order; none qualifying gives an empty frame. *)
Definition load_incremental_data (s3_bucket : string) (table_config : TableConfig)
    (last_processed : option value) : M DataFrame :=
  let col := default "" (incremental_column table_config) in
  table ← download_object s3_bucket (source_path table_config);
  mret {| df_columns := df_columns table;
          df_rows := List.filter (λ r, exceeds last_processed (cell col r)) (df_rows table) |}.

(** Modelled from the spec: [get_data_iterator] is not in the sources.  It
    yields the source in consecutive chunks of [batch_size] rows. *)
Definition get_data_iterator (s3_bucket : string) (table_config : TableConfig)
    (batch_size : Z) : M (list DataFrame) :=
  table ← download_object s3_bucket (source_path table_config);
  mret (chunk_frames (Z.to_nat batch_size) table).

(** [incremental_load_flow] (lines 171-197). *)
Definition incremental_load_flow (table_config : TableConfig) (connector s3_bucket : string)
    : M unit :=
  if negb (truthy (incremental_column table_config)) then
    raise (ValueError "Incremental column not configured")
  else
    last_processed ← get_last_processed_value connector table_config;
    new_data ← load_incremental_data s3_bucket table_config last_processed;
    if negb (empty_df new_data) then
      process_data_batch new_data table_config connector ;; mret ()
    else mret ().

(** The full load of lines 237-245. *)
Definition full_load (config : TableConfig) (connector s3_bucket : string) : M unit :=
  data_iterator ← get_data_iterator s3_bucket config (batch_size config);
  for_each data_iterator (λ batch,
    process_data_batch batch config connector ;; mret ()).

(** The choice between the two loads (lines 234-245). *)
Definition load_step (config : TableConfig) (connector s3_bucket : string) : M unit :=
  if truthy (incremental_column config) then
    incremental_load_flow config connector s3_bucket
  else full_load config connector s3_bucket.

(** One turn of the loop of [main_flow] (lines 220-245). *)
Definition process_config (date : string) (connector s3_bucket : string)
    (config : TableConfig) : M unit :=
  emit (EvLog "info" ("Processing " ++ name config)) ;;
  validation_results ← validate_source_data
                         ("raw/" ++ name config ++ "/" ++ date) config s3_bucket;
  data_quality_flow config validation_results ;;
  if null_check_passed validation_results then
    load_step config connector s3_bucket
  else mret ().

(** [main_flow] (lines 202-245); [date] is the run date already formatted as
    [%Y/%m/%d]. *)
Definition main_flow (configs : list TableConfig) (date : string) : M unit :=
  let connector := "snowflake-prod" in
  let s3_bucket := "data-lake" in
  for_each configs (process_config date connector s3_bucket).

End Pipeline.

End ComplexPipeline.

(** ** etl_pipeline.py *)

Module EtlPipeline.

Definition SNOWFLAKE_CONNECTOR_BLOCK : string := "snowflake-demo".
Definition RAW_DATABASE : string := "RAW_DB".
Definition ANALYTICS_DATABASE : string := "ANALYTICS_DB".
Definition RAW_SCHEMA : string := "RAW".
Definition ANALYTICS_SCHEMA : string := "ANALYTICS".

(** [DIM_FACT_DDLS] (lines 76-147): the key of each entry and the table its
    [CREATE TABLE IF NOT EXISTS] names, in the order of the dict. *)
Definition DIM_FACT_DDLS : list (string * (string → string → sql)) :=
  [ ("dim_products", λ database schema, CreateTableIfNotExists database schema "DIM_PRODUCTS");
    ("dim_locations", λ database schema, CreateTableIfNotExists database schema "DIM_LOCATIONS");
    ("dim_customers", λ database schema, CreateTableIfNotExists database schema "DIM_CUSTOMERS");
    ("dim_dates", λ database schema, CreateTableIfNotExists database schema "DIM_DATES");
    ("fact_sales", λ database schema, CreateTableIfNotExists database schema "FACT_SALES") ].

Definition execute (stmt : sql) : M unit := perform (EvExecute stmt).

(** [with connector.get_connection() as conn] *)
Definition get_connection {A} (connector : string) (body : M A) : M A :=
  perform (EvConnect connector) ;;
  try_finally body (perform (EvClose connector)).

Definition create_dimension_tables_options : task_options := {|
  task_key := "create_dimension_tables";
  retries := 3;
  retry_delay_seconds := None;
  cache_key_fn := true
|}.

Definition load_dimension_table_options : task_options := {|
  task_key := "load_dimension_table";
  retries := 3;
  retry_delay_seconds := None;
  cache_key_fn := false
|}.

Definition load_fact_sales_options : task_options := {|
  task_key := "load_fact_sales";
  retries := 3;
  retry_delay_seconds := None;
  cache_key_fn := false
|}.

(** [DDL_STATEMENTS] (lines 19-73): the key of each entry and the table its
    [CREATE TABLE IF NOT EXISTS] names, in the order of the dict. *)
Definition DDL_STATEMENTS : list (string * (string → string → sql)) :=
  [ ("products", λ database schema, CreateTableIfNotExists database schema "PRODUCTS");
    ("locations", λ database schema, CreateTableIfNotExists database schema "LOCATIONS");
    ("customers", λ database schema, CreateTableIfNotExists database schema "CUSTOMERS");
    ("orders", λ database schema, CreateTableIfNotExists database schema "ORDERS");
    ("sales", λ database schema, CreateTableIfNotExists database schema "SALES") ].

Definition create_raw_tables_options : task_options := {|
  task_key := "create_raw_tables";
  retries := 3;
  retry_delay_seconds := None;
  cache_key_fn := true
|}.

(** [create_raw_tables] (lines 149-154). *)
Definition create_raw_tables_body (connector : string) : M unit :=
  get_connection connector
    (for_each DDL_STATEMENTS (λ entry,
       execute (entry.2 RAW_DATABASE RAW_SCHEMA))).

Definition create_raw_tables (connector : string) : M unit :=
  call_task create_raw_tables_options (ArgsConnector connector)
    (create_raw_tables_body connector).

(** [create_dimension_tables] (lines 156-161). *)
Definition create_dimension_tables (connector : string) : M unit :=
  call_task create_dimension_tables_options (ArgsConnector connector)
    (get_connection connector
       (for_each DIM_FACT_DDLS (λ entry,
          execute (entry.2 ANALYTICS_DATABASE ANALYTICS_SCHEMA)))).

(** [load_dimension_table] (lines 182-192). *)
Definition load_dimension_table_body (connector table_name : string)
    (transformation_query : query_template) : M unit :=
  get_connection connector
    (execute (Truncate ANALYTICS_DATABASE ANALYTICS_SCHEMA table_name) ;;
     execute (format_query transformation_query
                RAW_DATABASE RAW_SCHEMA ANALYTICS_DATABASE ANALYTICS_SCHEMA)).

Definition load_dimension_table (connector table_name : string)
    (transformation_query : query_template) : M unit :=
  call_task load_dimension_table_options
    (ArgsDimension connector table_name transformation_query)
    (load_dimension_table_body connector table_name transformation_query).

(** The query of [load_fact_sales] (lines 197-219). *)
Definition fact_sales_query : query_template := {|
  insert_into := "FACT_SALES";
  select_from := [ RawTable "SALES"; RawTable "ORDERS";
                   AnalyticsTable "DIM_CUSTOMERS"; AnalyticsTable "DIM_PRODUCTS";
                   AnalyticsTable "DIM_LOCATIONS"; AnalyticsTable "DIM_DATES" ]
|}.

(** [load_fact_sales] (lines 194-228). *)
Definition load_fact_sales_body (connector : string) : M unit :=
  get_connection connector
    (execute (Truncate ANALYTICS_DATABASE ANALYTICS_SCHEMA "FACT_SALES") ;;
     execute (format_query fact_sales_query
                RAW_DATABASE RAW_SCHEMA ANALYTICS_DATABASE ANALYTICS_SCHEMA)).

Definition load_fact_sales (connector : string) : M unit :=
  call_task load_fact_sales_options (ArgsConnector connector)
    (load_fact_sales_body connector).

(** [dim_transforms] (lines 245-281), in the order of the dict. *)
Definition dim_transforms : list (string * query_template) :=
  [ ("DIM_PRODUCTS",
     {| insert_into := "DIM_PRODUCTS"; select_from := [RawTable "PRODUCTS"] |});
    ("DIM_LOCATIONS",
     {| insert_into := "DIM_LOCATIONS"; select_from := [RawTable "LOCATIONS"] |});
    ("DIM_CUSTOMERS",
     {| insert_into := "DIM_CUSTOMERS"; select_from := [RawTable "CUSTOMERS"] |}) ].

(** *** Flows that submit tasks

    A statement of a flow either calls a task, and waits for it, or hands
    it to the task runner with [.submit], which returns a future at once.
    The flow below never reads its futures. *)
Inductive statement :=
| Call (run : M unit)
| Submit (key : string) (args : task_args) (run : M unit).

(** A submitted task run: not started yet ([None]) or finished. *)
Record future := {
  future_key : string;
  future_args : task_args;
  future_run : M unit;
  future_result : option (exn + unit)
}.

(** The task runner running the submitted task number [i], if it has not
    run yet.  A failure stays in the future.  The run is taken as one step,
    between two statements of the flow: its events are not interleaved with
    those of the flow or of another run. *)
Definition run_future (i : nat) (pool : list future) (w : world) : list future * world :=
  match pool !! i with
  | Some f =>
      match future_result f with
      | None =>
          let '(r, w') := future_run f w in
          (<[i := {| future_key := future_key f; future_args := future_args f;
                     future_run := future_run f; future_result := Some r |}]> pool, w')
      | Some _ => (pool, w)
      end
  | None => (pool, w)
  end.

Fixpoint run_futures (picks : list nat) (pool : list future) (w : world)
    : list future * world :=
  match picks with
  | [] => (pool, w)
  | i :: rest => let '(pool', w') := run_future i pool w in run_futures rest pool' w'
  end.

(** The flow body under a schedule: [schedule] gives, for each statement in
    turn, the submitted task runs that the task runner completes before the
    flow reaches that statement.  A task that fails when called raises in
    the flow and ends its body. *)
Fixpoint run_statements (body : list statement) (schedule : list (list nat))
    (pool : list future) (w : world) : (exn + unit) * list future * world :=
  match body with
  | [] => (inr (), pool, w)
  | s :: rest =>
      let '(pool1, w1) := run_futures (hd [] schedule) pool w in
      match s with
      | Call run =>
          match run w1 with
          | (inl e, w2) => (inl e, pool1, w2)
          | (inr _, w2) => run_statements rest (tl schedule) pool1 w2
          end
      | Submit key args run =>
          run_statements rest (tl schedule)
            (pool1 ++ [{| future_key := key; future_args := args;
                          future_run := run; future_result := None |}])
            (log (EvSubmit key args) w1)
      end
  end.

(** The final state of a flow run that returns nothing: the exception of
    its body, else that of the first failed task run, else success. *)
Definition final_state (r : exn + unit) (pool : list future) : exn + unit :=
  match r with
  | inl e => inl e
  | inr _ =>
      match omap (λ f, match future_result f with Some (inl e) => Some e | _ => None end) pool with
      | e :: _ => inl e
      | [] => inr ()
      end
  end.

(** A flow run: the body under the schedule; then the run waits for every
    task run still pending before it reports its final state. *)
Definition run_flow (body : list statement) (schedule : list (list nat)) (w : world)
    : (exn + unit) * list future * world :=
  let '(r, pool, w1) := run_statements body schedule [] w in
  let '(pool2, w2) := run_futures (seq 0 (length pool)) pool w1 in
  (final_state r pool2, pool2, w2).

(** [load_dimensional_model_flow] (lines 240-288). *)
Definition load_dimensional_model_flow (connector : string) : list statement :=
  [Call (create_dimension_tables connector)]
  ++ ((λ entry, Submit "load_dimension_table"
                  (ArgsDimension connector entry.1 entry.2)
                  (load_dimension_table connector entry.1 entry.2)) <$> dim_transforms)
  ++ [Call (load_fact_sales connector)].

End EtlPipeline.

(** ** dtn3j.py: from a parsed DOT graph to Cypher queries

    [generate_cypher] works on what [parse_dot] has stored in the
    converter: the nodes, a dict from node id to the dict of its attributes,
    and the list of relationships.  The parsing itself is done with regular
    expressions and is not modelled. *)

Module DotToNeo4j.

(** A Python dict with string keys: the items in insertion order, each key
    once. *)
Definition dict (V : Type) : Type := list (string * V).

(** [d.get(k)] *)
Fixpoint dict_get {V} (d : dict V) (k : string) : option V :=
  match d with
  | [] => None
  | (k', v) :: rest => if String.eqb k' k then Some v else dict_get rest k
  end.

(** [d[k] = v]: an existing key keeps its place, a new key goes last. *)
Fixpoint dict_set {V} (d : dict V) (k : string) (v : V) : dict V :=
  match d with
  | [] => [(k, v)]
  | (k', v') :: rest =>
      if String.eqb k' k then (k, v) :: rest else (k', v') :: dict_set rest k v
  end.

(** [del d[k]], for a key that is there. *)
Definition dict_del {V} (d : dict V) (k : string) : dict V :=
  List.filter (λ item, negb (String.eqb item.1 k)) d.

(** [{k: v for k, v in d.items() if k != 'label'}] *)
Definition without_label (d : dict string) : dict string :=
  List.filter (λ item, negb (String.eqb item.1 "label")) d.

(** [s.split(sep)] for a separator of one character. *)
Fixpoint split (sep : Ascii.ascii) (s : string) : list string :=
  match s with
  | EmptyString => [EmptyString]
  | String c rest =>
      if Ascii.eqb c sep then EmptyString :: split sep rest
      else match split sep rest with
           | first :: others => String c first :: others
           | [] => [String c EmptyString]
           end
  end.

(** [c in s] for a character. *)
Fixpoint contains (c : Ascii.ascii) (s : string) : bool :=
  match s with
  | EmptyString => false
  | String c' rest => Ascii.eqb c' c || contains c rest
  end.

(** The characters [str.strip()] removes, among the ASCII ones. *)
Definition is_space (c : Ascii.ascii) : bool :=
  let n := Ascii.nat_of_ascii c in
  ((9 <=? n) && (n <=? 13) || (28 <=? n) && (n <=? 32))%nat.

Fixpoint lstrip (s : string) : string :=
  match s with
  | EmptyString => EmptyString
  | String c rest => if is_space c then lstrip rest else s
  end.

Definition reverse (s : string) : string :=
  String.string_of_list_ascii (rev (String.list_ascii_of_string s)).

Definition rstrip (s : string) : string := reverse (lstrip (reverse s)).

Definition strip (s : string) : string := rstrip (lstrip s).

Definition newline : string := String (Ascii.ascii_of_nat 10) EmptyString.

(** The character [':']. *)
Definition colon : Ascii.ascii := Ascii.ascii_of_nat 58.

(** The indentation of the lines of the query text at lines 78-79. *)
Definition indent : string := "            ".

(** [', '.join(f"{k}: '{v}'" for k, v in props.items())] *)
Definition render_props (props : dict string) : string :=
  String.concat ", "
    ((λ item : string * string, item.1 +:+ ": '" +:+ item.2 +:+ "'") <$> props).

Record converter := {
  nodes : dict (dict string);
  relationships : list (string * string * string * dict string)
}.

(** The label of the node in the query (lines 57-58). *)
Definition primary_label (attrs : dict string) : string :=
  let labels := split colon (default "" (dict_get attrs "label")) in
  match labels with
  | first :: _ => first
  | [] => "Node"
  end.

(** The attributes of the node after lines 61-62: a label with a colon is
    deleted from the dict that the converter holds. *)
Definition drop_type_label (attrs : dict string) : dict string :=
  match dict_get attrs "label" with
  | Some label => if contains colon label then dict_del attrs "label" else attrs
  | None => attrs
  end.

(** The properties of the node (lines 64-65). *)
Definition node_props (node_id : string) (attrs : dict string) : dict string :=
  dict_set (without_label (drop_type_label attrs)) "name" node_id.

(** One turn of the loop over the nodes (lines 56-70): the query, and the
    attributes the node is left with. *)
Definition node_query (node_id : string) (attrs : dict string) : string * dict string :=
  ("CREATE (:" +:+ primary_label attrs +:+ " {"
   +:+ render_props (node_props node_id attrs) +:+ "})",
   drop_type_label attrs).

(** One turn of the loop over the relationships (lines 73-82). *)
Definition relationship_query (relationship : string * string * string * dict string)
    : string :=
  let '(from_node, to_node, rel_type, attrs) := relationship in
  let rel_name := default "RELATES_TO" (dict_get attrs "label") in
  let props := without_label attrs in
  let query :=
    newline +:+ indent +:+ "MATCH (from {name: '" +:+ from_node +:+ "'}), (to {name: '"
    +:+ to_node +:+ "'})" +:+ newline +:+ indent +:+ "CREATE (from)-[:" +:+ rel_name +:+ " {" in
  let query := query +:+ render_props props in
  let query := query +:+ "}]->(to)" in
  strip query.

(** [generate_cypher] (lines 51-84): the queries, and the converter with
    the attributes of its nodes as the loop leaves them. *)
Definition generate_cypher (self : converter) : list string * converter :=
  let node_turns := (λ item, (item.1, node_query item.1 item.2)) <$> nodes self in
  let queries := (λ turn, turn.2.1) <$> node_turns in
  let queries := queries ++ (relationship_query <$> relationships self) in
  (queries,
   {| nodes := (λ turn, (turn.1, turn.2.2)) <$> node_turns;
      relationships := relationships self |}).

End DotToNeo4j.

(** ** Properties of runs *)

(** [m] keeps the property [P] of the world, whatever its outcome. *)
Definition preserves {A} (P : world → Prop) (m : M A) : Prop :=
  ∀ w, P w → P (m w).2.

(** [P] does not look at the trace. *)
Definition log_stable (P : world → Prop) : Prop :=
  ∀ e w, P w → P (log e w).

(** Both quality flags of a validation result are up. *)
Definition flags_pass (v : ValidationResult) : Prop :=
  data_types_match v = true ∧ null_check_passed v = true.

Definition sound_entry (c : cached) : Prop :=
  match c with
  | CValidation v => flags_pass v
  | _ => True
  end.

(** [P] is kept when a sound entry is stored in the result cache. *)
Definition store_stable (P : world → Prop) : Prop :=
  ∀ k c w, sound_entry c → P w → P (store_result k c w).

(** Every entry of the cache is sound. *)
Definition cache_sound (w : world) : Prop :=
  ∀ k c, cache w !! k = Some c → sound_entry c.

(** One turn of the orchestration loop with the quality flow and the gate
    taken out: validate, then load. *)
Definition validate_then_load (transform_batch : DataFrame → DataFrame)
    (date connector s3_bucket : string) (config : TableConfig) : M unit :=
  emit (EvLog "info" ("Processing " ++ name config)) ;;
  ComplexPipeline.validate_source_data
    ("raw/" ++ name config ++ "/" ++ date) config s3_bucket ;;
  ComplexPipeline.load_step transform_batch config connector s3_bucket.

(** [ceil(n / b)] on integers. *)
Definition ceil_div (n b : Z) : Z := (n + b - 1) / b.

(** The tasks that carry out the steps of the pipeline, with the options
    of their decorators. *)
Definition step_options : list task_options :=
  [ ComplexPipeline.validate_source_data_options;
    ComplexPipeline.process_data_batch_options;
    EtlPipeline.create_dimension_tables_options;
    EtlPipeline.load_dimension_table_options;
    EtlPipeline.load_fact_sales_options ].

(** Between [w] and [w'] the trace has only grown, and the events [es]
    are among those added, in this order. *)
Definition in_order (es : list event) (w w' : world) : Prop :=
  ∃ added, trace w' = trace w ++ added ∧ es `sublist_of` added.

(** Every task run of the pool only appends to the trace and keeps what
    does not depend on the trace. *)
Definition pool_ok (pool : list EtlPipeline.future) : Prop :=
  Forall (λ f, ∀ P, log_stable P → preserves P (EtlPipeline.future_run f)) pool.

(** The task run number [i] of the pool, if there is one, has finished. *)
Definition terminal (i : nat) (pool : list EtlPipeline.future) : Prop :=
  ∀ f, pool !! i = Some f → EtlPipeline.future_result f ≠ None.

(** ** Reading a trace *)

(** The delays of the retries the engine scheduled. *)
Definition retry_delays_seen (tr : list event) : list Z :=
  omap (λ e, match e with EvTask _ _ (AwaitingRetry d) => Some d | _ => None end) tr.

(** The batches handed to the warehouse's upsert, with their table. *)
Definition upserts (tr : list event) : list (string * DataFrame) :=
  omap (λ e, match e with EvUpsert t df => Some (t, df) | _ => None end) tr.

(** The metrics handed to the reporting collaborator. *)
Definition metrics_emitted (tr : list event) : list BatchMetrics :=
  omap (λ e, match e with EvEmitMetrics _ m => Some m | _ => None end) tr.

(** The messages logged at a level. *)
Definition logged (level : string) (tr : list event) : list string :=
  omap (λ e, match e with
             | EvLog l msg => if String.eqb l level then Some msg else None
             | _ => None
             end) tr.

(** The statements sent to the warehouse. *)
Definition executed (tr : list event) : list sql :=
  omap (λ e, match e with EvExecute stmt => Some stmt | _ => None end) tr.

(** The objects downloaded from the store. *)
Definition downloads (tr : list event) : list string :=
  omap (λ e, match e with EvDownload _ path => Some path | _ => None end) tr.

(** The states the runs of the task [key] went through, with the table the
    run was about. *)
Definition task_states (key : string) (tr : list event) : list (string * run_state) :=
  omap (λ e, match e with
             | EvTask k args st =>
                 if String.eqb k key then
                   Some (match args with
                         | ArgsValidate _ c _ | ArgsBatch _ c _ => name c
                         | ArgsConnector c => c
                         | ArgsDimension _ t _ => t
                         end, st)
                 else None
             | _ => None
             end) tr.

(** Whether a state ends a task run. *)
Definition ended (st : run_state) : bool :=
  match st with
  | Completed | FailedState => true
  | _ => false
  end.

Definition outcome_of (key : string) (e : event) : option (task_args * run_state) :=
  match e with
  | EvTask k args st => if String.eqb k key && ended st then Some (args, st) else None
  | _ => None
  end.

(** The runs of the task [key] that ended, in the order they ended: the
    arguments of the call and the state the run ended in. *)
Definition outcomes (key : string) (tr : list event) : list (task_args * run_state) :=
  omap (outcome_of key) tr.

(** Whether the event is the end of a task run. *)
Definition is_outcome (e : event) : bool :=
  match e with
  | EvTask _ _ st => ended st
  | _ => false
  end.

(** The events of one call of [process_data_batch] in which nothing fails:
    the task run starts, the connection is opened, the transformed batch
    is upserted, its metrics are reported, the connection is closed and the
    run completes. *)
Definition batch_load_events (transform_batch : DataFrame → DataFrame)
    (config : TableConfig) (connector : string) (batch : DataFrame) : list event :=
  let args := ArgsBatch batch config connector in
  let loaded := transform_batch batch in
  [ EvTask "process_data_batch" args Running;
    EvConnect connector;
    EvUpsert (name config) loaded;
    EvEmitMetrics (name config) {| processed := len loaded; errors := 0 |};
    EvClose connector;
    EvTask "process_data_batch" args Completed ].

(** Whether the event is the line the main flow logs when it turns to a
    table. *)
Definition is_info (e : event) : bool :=
  match e with
  | EvLog level _ => String.eqb level "info"
  | _ => false
  end.

(** Whether the event belongs to the fact load: a state of a run of
    [load_fact_sales], or a statement that empties or fills [FACT_SALES]. *)
Definition fact_load_event (e : event) : bool :=
  match e with
  | EvTask key _ _ => String.eqb key "load_fact_sales"
  | EvExecute (Truncate _ _ table) | EvExecute (InsertSelect _ _ table _) =>
      String.eqb table "FACT_SALES"
  | _ => false
  end.

(** ** Worlds and inputs used in examples *)

Module Scenario.

Definition no_fault : event → nat → bool := λ _ _, false.

(** A fingerprint for examples: the task key and the name the arguments
    are about. *)
Definition fingerprint (key : string) (args : task_args) : string :=
  key ++ ":" ++
  match args with
  | ArgsValidate s3_path _ _ => s3_path
  | ArgsBatch _ table_config _ => name table_config
  | ArgsConnector connector => connector
  | ArgsDimension _ table_name _ => table_name
  end.

Definition initial (objects : gmap string DataFrame)
    (marks : gmap (string * string) value) (faults : event → nat → bool) : world :=
  {| s3 := objects; watermarks := marks; cache := ∅;
     task_input_hash := fingerprint; fault := faults; trace := [] |}.

Definition sales : TableConfig :=
  {| name := "sales"; pk_columns := ["sale_id"]; partition_columns := None;
     incremental_column := Some "created_at"; batch_size := 2 |}.

Definition products : TableConfig :=
  {| name := "products"; pk_columns := ["product_id"];
     partition_columns := Some ["category"];
     incremental_column := None; batch_size := 2 |}.

Definition sale (sale_id : value) (created_at : value) : gmap string value :=
  <["sale_id" := sale_id]> (<["created_at" := created_at]> ∅).

Definition sale1 := sale (VInt 1) (VDate 2024 1 2).
Definition sale2 := sale (VInt 2) (VDate 2024 1 3).
Definition sale3 := sale (VInt 3) (VDate 2023 12 31).

Definition sales_frame (rows : list (gmap string value)) : DataFrame :=
  {| df_columns := ["sale_id"; "created_at"]; df_rows := rows |}.

Definition product (product_id : Z) : gmap string value :=
  <["product_id" := VInt product_id]> (<["category" := VStr "toys"]> ∅).

Definition products_frame (rows : list (gmap string value)) : DataFrame :=
  {| df_columns := ["product_id"; "category"]; df_rows := rows |}.

(** The incremental scenario: a watermark of 2024-01-01 and three incoming
    rows. *)
Definition incremental_world : world :=
  initial (<["raw/sales" := sales_frame [sale1; sale2; sale3]]> ∅)
          (<[("sales", "created_at") := VDate 2024 1 1]> ∅)
          no_fault.

(** The first incremental run: the three rows and no watermark yet. *)
Definition first_run_world : world :=
  initial (<["raw/sales" := sales_frame [sale1; sale2; sale3]]> ∅) ∅ no_fault.

(** A landed sales object whose second row has no key. *)
Definition null_key_world : world :=
  initial (<["raw/sales/2024/01/04" := sales_frame [sale1; sale VNull (VDate 2024 1 3)]]>
           (<["raw/sales" := sales_frame [sale1; sale VNull (VDate 2024 1 3)]]> ∅))
          ∅ no_fault.

(** Three landed products; every upsert of the first chunk of two fails. *)
Definition upsert_fault (e : event) (n : nat) : bool :=
  bool_decide (e = EvUpsert "products" (products_frame [product 1; product 2])).

Definition failing_chunk_world : world :=
  initial (<["raw/products/2024/01/04" := products_frame [product 1; product 2; product 3]]>
           (<["raw/products" := products_frame [product 1; product 2; product 3]]> ∅))
          ∅ upsert_fault.

(** Three landed products, and nothing fails. *)
Definition landed_products_world : world :=
  initial (<["raw/products" := products_frame [product 1; product 2; product 3]]> ∅)
          ∅ no_fault.

(** Nothing has landed for products; sales is as in the incremental
    scenario. *)
Definition missing_object_world : world :=
  initial (<["raw/sales/2024/01/04" := sales_frame [sale1; sale2; sale3]]>
           (<["raw/sales" := sales_frame [sale1; sale2; sale3]]> ∅))
          ∅ no_fault.

(** Every statement on [DIM_LOCATIONS] fails. *)
Definition locations_fault (e : event) (n : nat) : bool :=
  match e with
  | EvExecute (Truncate _ _ table) => String.eqb table "DIM_LOCATIONS"
  | _ => false
  end.

Definition locations_down_world : world := initial ∅ ∅ locations_fault.

(** The task runner finishes the three dimension loads before the flow
    reaches its fifth statement, the fact load. *)
Definition dimensions_first : list (list nat) := [[]; []; []; []; [0; 1; 2]]%nat.

End Scenario.

(** [m] can only return values satisfying [Q]. *)
Definition returns {A} (Q : A → Prop) (m : M A) : Prop :=
  ∀ w a w', m w = (inr a, w') → Q a.

(** [m] can only raise exceptions satisfying [E]. *)
Definition raises {A} (E : exn → Prop) (m : M A) : Prop :=
  ∀ w e w', m w = (inl e, w') → E e.

(** [m] only appends to the trace, and only events satisfying [ok]. *)
Definition emits {A} (ok : event → Prop) (m : M A) : Prop :=
  ∀ w, ∃ added, trace (m w).2 = trace w ++ added ∧ Forall ok added.

(** Whether the column [pk] of the frame has a null; a column that is not
    there has none. *)
Definition has_null (df : DataFrame) (pk : string) : bool :=
  match column df pk with
  | Some col => existsb isnull col
  | None => false
  end.

(** The events a validation of the object at [s3_path] may add. *)
Definition validation_event (s3_bucket s3_path : string) (table_config : TableConfig)
    (e : event) : Prop :=
  match e with
  | EvLog _ _ => True
  | EvDownload bucket path => bucket = s3_bucket ∧ path = s3_path
  | EvArtifact key => key = ("validation-" +:+ name table_config)
  | EvTask key _ _ => key = "validate_source_data"
  | _ => False
  end.

(** The events the load of a batch may add between opening and closing its
    connection. *)
Definition batch_event (table_config : TableConfig) (e : event) : Prop :=
  match e with
  | EvLog _ _ => True
  | EvUpsert table _ | EvEmitMetrics table _ => table = name table_config
  | _ => False
  end.

(** The events a run of the main flow over [configs] may add. *)
Definition main_flow_event (configs : list TableConfig) (e : event) : Prop :=
  match e with
  | EvLog _ _ | EvArtifact _ => True
  | EvTask key _ _ => key = "validate_source_data" ∨ key = "process_data_batch"
  | EvDownload s3_bucket _ => s3_bucket = "data-lake"
  | EvConnect connector | EvClose connector => connector = "snowflake-prod"
  | EvUpsert table _ | EvEmitMetrics table _ | EvGetWatermark table _ =>
      table ∈ name <$> configs
  | EvExecute _ | EvSubmit _ _ => False
  end.

(** The exceptions that come out of the tasks: the [TypeError] of a
    handler that raises a [State], or the raw error of an external
    operation. *)
Definition task_failure (e : exn) : Prop :=
  match e with
  | TypeError msg => msg = "exceptions must derive from BaseException"
  | InfraError _ => True
  | ValueError _ | KeyError _ => False
  end.

(** The events a creation of the raw tables may add. *)
Definition raw_ddl_event (connector : string) (e : event) : Prop :=
  match e with
  | EvTask key _ _ => key = "create_raw_tables"
  | EvConnect c | EvClose c => c = connector
  | EvExecute (CreateTableIfNotExists database schema table) =>
      database = "RAW_DB" ∧ schema = "RAW"
      ∧ table ∈ ["PRODUCTS"; "LOCATIONS"; "CUSTOMERS"; "ORDERS"; "SALES"]
  | _ => False
  end.

(** The events a run of the dimensional model build may add. *)
Definition model_build_event (connector : string) (e : event) : Prop :=
  match e with
  | EvTask _ _ _ | EvSubmit _ _ => True
  | EvConnect c | EvClose c => c = connector
  | EvExecute (CreateTableIfNotExists database schema _)
  | EvExecute (Truncate database schema _) =>
      database = "ANALYTICS_DB" ∧ schema = "ANALYTICS"
  | EvExecute (InsertSelect database schema table _) =>
      database = "ANALYTICS_DB" ∧ schema = "ANALYTICS"
      ∧ table ∈ ["DIM_PRODUCTS"; "DIM_LOCATIONS"; "DIM_CUSTOMERS"; "FACT_SALES"]
  | _ => False
  end.

(** * Facts *)

(** ** Frame rules of the monad and of the task engine *)

Section Frame.

Context (P : world → Prop).

Lemma preserves_ret {A} (a : A) : preserves P (mret a).
Proof. intros w Hw. exact Hw. Qed.

Lemma preserves_raise {A} (e : exn) : preserves P (@raise A e).
Proof. intros w Hw. exact Hw. Qed.

Lemma preserves_inspect {A} (f : world → exn + A) : preserves P (inspect f).
Proof. intros w Hw. exact Hw. Qed.

Lemma preserves_bind {A B} (m : M A) (f : A → M B) :
  preserves P m → (∀ a, preserves P (f a)) → preserves P (m ≫= f).
Proof.
  intros Hm Hf w Hw. unfold mbind, M_bind.
  specialize (Hm w Hw). destruct (m w) as [[e|a] w1]; simpl in *.
  - exact Hm.
  - apply Hf, Hm.
Qed.

Lemma preserves_try_except {A} (body : M A) (handler : exn → M A) :
  preserves P body → (∀ e, preserves P (handler e)) →
  preserves P (try_except body handler).
Proof.
  intros Hb Hh w Hw. unfold try_except.
  specialize (Hb w Hw). destruct (body w) as [[e|a] w1]; simpl in *.
  - apply Hh, Hb.
  - exact Hb.
Qed.

Lemma preserves_try_finally {A} (body : M A) (cleanup : M unit) :
  preserves P body → preserves P cleanup → preserves P (try_finally body cleanup).
Proof.
  intros Hb Hc w Hw. unfold try_finally.
  specialize (Hb w Hw). destruct (body w) as [r w1]; simpl in *.
  specialize (Hc w1 Hb). destruct (cleanup w1) as [[e|u] w2]; exact Hc.
Qed.

Lemma preserves_for_each {A} (xs : list A) (body : A → M unit) :
  (∀ x, preserves P (body x)) → preserves P (for_each xs body).
Proof.
  intros Hb. induction xs as [|x xs IH]; simpl.
  - apply preserves_ret.
  - apply preserves_bind; [apply Hb | intros _; exact IH].
Qed.

Hypothesis P_log : log_stable P.

Lemma preserves_emit (e : event) : preserves P (emit e).
Proof. intros w Hw. apply P_log, Hw. Qed.

Lemma preserves_perform (e : event) : preserves P (perform e).
Proof.
  intros w Hw. unfold perform.
  destruct (fault w e (length (trace w))); apply P_log, Hw.
Qed.

Lemma preserves_run_attempts {A} opts args (body : M A) :
  preserves P body →
  ∀ retries_left run_count w, P w →
    P (run_attempts opts args body retries_left run_count w).2.
Proof.
  intros Hb retries_left.
  induction retries_left as [|n IH]; intros run_count w Hw; simpl;
    pose proof (Hb _ (P_log (EvTask (task_key opts) args Running) w Hw)) as H1;
    destruct (body _) as [[e|a] w1]; simpl in *;
    try (apply P_log, H1).
  apply IH, P_log, H1.
Qed.

Lemma preserves_run_task {A} opts args (body : M A) :
  preserves P body → preserves P (run_task opts args body).
Proof.
  intros Hb w Hw. unfold run_task.
  pose proof (preserves_run_attempts opts args body Hb (retries opts) 1%nat w Hw) as H1.
  destruct (run_attempts _ _ _ _ _ _) as [[r n] w1]. exact H1.
Qed.

End Frame.

Lemma returns_run_attempts {A} (Q : A → Prop) opts args (body : M A) :
  returns Q body →
  ∀ retries_left run_count w a n w',
    run_attempts opts args body retries_left run_count w = (inr a, n, w') → Q a.
Proof.
  intros Hb retries_left.
  induction retries_left as [|k IH]; intros run_count w a n w'; simpl;
    destruct (body _) as [[e|b] w1] eqn:Hbody; intros Heq;
    try (injection Heq as <- _ _; eapply Hb, Hbody); try discriminate.
  eapply IH, Heq.
Qed.

Lemma returns_run_task {A} (Q : A → Prop) opts args (body : M A) :
  returns Q body → returns Q (run_task opts args body).
Proof.
  intros Hb w a w'. unfold run_task.
  destruct (run_attempts _ _ _ _ _ _) as [[r n] w1] eqn:Hrun.
  intros [= -> ->]. eapply returns_run_attempts; eauto.
Qed.

Lemma preserves_call_task {A} `{Cacheable A} (P : world → Prop) (Q : A → Prop)
    opts args (body : M A) :
  log_stable P → returns Q body →
  (∀ k a w, Q a → P w → P (store_result k (to_cached a) w)) →
  preserves P body → preserves P (call_task opts args body).
Proof.
  intros Hlog Hret Hstore Hb w Hw. unfold call_task.
  destruct (cache_key_fn opts).
  - destruct (cache w !! _ ≫= of_cached) as [a|].
    + apply Hlog, Hw.
    + pose proof (preserves_run_task P Hlog opts args body Hb w Hw) as H1.
      destruct (run_task opts args body w) as [[e|a] w1] eqn:Hrun; simpl in *.
      * exact H1.
      * apply Hstore; [|exact H1].
        eapply (returns_run_task Q), Hrun. exact Hret.
  - apply (preserves_run_task P Hlog), Hw. exact Hb.
Qed.

Lemma returns_ret {A} (Q : A → Prop) (a : A) : Q a → returns Q (mret a).
Proof. intros Ha w b w' [= <- _]. exact Ha. Qed.

Lemma returns_raise {A} (Q : A → Prop) (e : exn) : returns Q (@raise A e).
Proof. intros w b w' [=]. Qed.

Lemma returns_bind {A B} (Q : B → Prop) (m : M A) (f : A → M B) :
  (∀ a, returns Q (f a)) → returns Q (m ≫= f).
Proof.
  intros Hf w b w'. unfold mbind, M_bind.
  destruct (m w) as [[e|a] w1]; [intros [=] | apply Hf].
Qed.

Lemma returns_try_except {A} (Q : A → Prop) (body : M A) (handler : exn → M A) :
  returns Q body → (∀ e, returns Q (handler e)) → returns Q (try_except body handler).
Proof.
  intros Hb Hh w a w'. unfold try_except.
  destruct (body w) as [[e|b] w1] eqn:Hbody.
  - apply Hh.
  - intros [= <- <-]. eapply Hb, Hbody.
Qed.

Lemma returns_try_finally {A} (Q : A → Prop) (body : M A) (cleanup : M unit) :
  returns Q body → returns Q (try_finally body cleanup).
Proof.
  intros Hb w a w'. unfold try_finally.
  destruct (body w) as [r w1] eqn:Hbody.
  destruct (cleanup w1) as [[e|u] w2]; [intros [=] | intros [= -> <-]].
  eapply Hb, Hbody.
Qed.

Ltac frame :=
  repeat first
    [ match goal with |- ∀ _, _ => intro end
    | assumption
    | apply preserves_ret | apply preserves_raise | apply preserves_inspect
    | apply preserves_bind | apply preserves_try_except
    | apply preserves_try_finally | apply preserves_for_each
    | apply preserves_emit | apply preserves_perform | apply preserves_run_task
    | match goal with
      | |- preserves _ (if ?b then _ else _) => destruct b
      | |- preserves _ (match ?x with _ => _ end) => destruct x
      end ].

(** ** What validation can return *)

Lemma validate_primary_keys_flags df_sample pks v :
  flags_pass v →
  returns flags_pass (ComplexPipeline.validate_primary_keys df_sample pks v).
Proof.
  revert v. induction pks as [|pk rest IH]; intros v Hv; simpl.
  - apply returns_ret, Hv.
  - destruct (column df_sample pk) as [col|]; [|apply returns_raise].
    destruct (existsb isnull col).
    + apply returns_bind. intros _. apply IH. exact Hv.
    + apply IH, Hv.
Qed.

Lemma validate_source_data_body_flags s3_path table_config s3_bucket :
  returns flags_pass
    (ComplexPipeline.validate_source_data_body s3_path table_config s3_bucket).
Proof.
  unfold ComplexPipeline.validate_source_data_body.
  apply returns_try_except.
  - apply returns_bind. intros table. intros w v w'.
    unfold mbind at 1, M_bind.
    destruct (ComplexPipeline.validate_primary_keys _ _ _ w) as [[e|v0] w0] eqn:Hpk;
      [intros [=]|].
    assert (flags_pass v0) as Hv0.
    { eapply validate_primary_keys_flags, Hpk. split; reflexivity. }
    revert w'. apply returns_bind. intros _. apply returns_ret, Hv0.
  - intros e. apply returns_bind. intros _. apply returns_raise.
Qed.

(** ** Frame rules of the tasks and flows of complex_pipeline.py *)

Section ComplexFrame.

Import ComplexPipeline.

Context (transform_batch : DataFrame → DataFrame).
Context (P : world → Prop) (P_log : log_stable P).

Lemma preserves_download_object s3_bucket path :
  preserves P (download_object s3_bucket path).
Proof. unfold download_object. frame. Qed.

Lemma preserves_validate_primary_keys df_sample pks v :
  preserves P (validate_primary_keys df_sample pks v).
Proof.
  revert v. induction pks as [|pk rest IH]; intros v; simpl; frame; apply IH.
Qed.

Lemma preserves_validate_source_data_body s3_path table_config s3_bucket :
  preserves P (validate_source_data_body s3_path table_config s3_bucket).
Proof.
  unfold validate_source_data_body, create_markdown_artifact. frame.
  apply preserves_validate_primary_keys.
Qed.

Lemma preserves_process_data_batch_body batch_df table_config connector :
  preserves P (process_data_batch_body transform_batch batch_df table_config connector).
Proof.
  unfold process_data_batch_body, snowflake_connection, upsert_to_snowflake,
    emit_batch_metrics. frame.
Qed.

Lemma preserves_data_quality_flow table_config v :
  preserves P (data_quality_flow table_config v).
Proof. unfold data_quality_flow, create_markdown_artifact. frame. Qed.

Context (P_store : store_stable P).

Lemma preserves_validate_source_data s3_path table_config s3_bucket :
  preserves P (validate_source_data s3_path table_config s3_bucket).
Proof.
  unfold validate_source_data.
  apply (preserves_call_task P flags_pass).
  - exact P_log.
  - apply validate_source_data_body_flags.
  - intros k a w Ha Hw. apply P_store; [exact Ha | exact Hw].
  - apply preserves_validate_source_data_body.
Qed.

Lemma preserves_process_data_batch batch_df table_config connector :
  preserves P (process_data_batch transform_batch batch_df table_config connector).
Proof.
  unfold process_data_batch.
  apply (preserves_call_task P (λ _, True)).
  - exact P_log.
  - intros w a w' _. exact I.
  - intros k a w _ Hw. apply P_store; [exact I | exact Hw].
  - apply preserves_process_data_batch_body.
Qed.

Lemma preserves_incremental_load_flow table_config connector s3_bucket :
  preserves P (incremental_load_flow transform_batch table_config connector s3_bucket).
Proof.
  unfold incremental_load_flow, get_last_processed_value, load_incremental_data.
  frame; apply preserves_process_data_batch.
Qed.

Lemma preserves_full_load config connector s3_bucket :
  preserves P (full_load transform_batch config connector s3_bucket).
Proof.
  unfold full_load, get_data_iterator.
  frame; apply preserves_process_data_batch.
Qed.

Lemma preserves_load_step config connector s3_bucket :
  preserves P (load_step transform_batch config connector s3_bucket).
Proof.
  unfold load_step.
  destruct (truthy _);
    [apply preserves_incremental_load_flow | apply preserves_full_load].
Qed.

End ComplexFrame.

(** ** The quality gate *)

Lemma cache_sound_log : log_stable cache_sound.
Proof. intros e w Hw k c Hk. exact (Hw k c Hk). Qed.

Lemma cache_sound_store : store_stable cache_sound.
Proof.
  intros k c w Hc Hw k' c'. unfold store_result; simpl.
  rewrite lookup_insert. case_decide as Hk.
  - intros [= <-]. exact Hc.
  - apply Hw.
Qed.

Lemma cache_sound_initial objects marks faults :
  cache_sound (Scenario.initial objects marks faults).
Proof. intros k c. simpl. rewrite lookup_empty. discriminate. Qed.

Lemma validate_source_data_flags s3_path table_config s3_bucket w v w' :
  cache_sound w →
  ComplexPipeline.validate_source_data s3_path table_config s3_bucket w = (inr v, w') →
  flags_pass v.
Proof.
  intros Hw. unfold ComplexPipeline.validate_source_data, call_task. simpl.
  destruct (cache w !! _) as [c|] eqn:Hc; simpl.
  - destruct c as [|v0|m]; simpl.
    2: { intros [= <- _]. exact (Hw _ _ Hc). }
    all: destruct (run_task _ _ _ w) as [[e|a] w1] eqn:Hrun; intros [= <- _];
      eapply (returns_run_task flags_pass), Hrun;
      apply validate_source_data_body_flags.
  - destruct (run_task _ _ _ w) as [[e|a] w1] eqn:Hrun; intros [= <- _].
    eapply (returns_run_task flags_pass), Hrun.
    apply validate_source_data_body_flags.
Qed.

Lemma data_quality_flow_silent table_config v w :
  flags_pass v → ComplexPipeline.data_quality_flow table_config v w = (inr (), w).
Proof.
  intros [_ Hn]. unfold ComplexPipeline.data_quality_flow. rewrite Hn. reflexivity.
Qed.

Lemma process_config_ungated transform_batch date connector s3_bucket config w :
  cache_sound w →
  ComplexPipeline.process_config transform_batch date connector s3_bucket config w
  = validate_then_load transform_batch date connector s3_bucket config w.
Proof.
  intros Hw. unfold ComplexPipeline.process_config, validate_then_load.
  unfold mbind, M_bind. simpl.
  pose proof (cache_sound_log (EvLog "info" ("Processing " ++ name config)) w Hw) as Hw1.
  destruct (ComplexPipeline.validate_source_data _ _ _ _) as [[e|v] w1] eqn:Hv;
    [reflexivity|].
  pose proof (validate_source_data_flags _ _ _ _ _ _ Hw1 Hv) as Hflags.
  rewrite (data_quality_flow_silent _ _ _ Hflags).
  destruct Hflags as [_ ->]. reflexivity.
Qed.

Lemma validate_then_load_sound transform_batch date connector s3_bucket config :
  preserves cache_sound (validate_then_load transform_batch date connector s3_bucket config).
Proof.
  unfold validate_then_load.
  apply preserves_bind; [apply preserves_emit, cache_sound_log | intros _].
  apply preserves_bind; [| intros _].
  - apply preserves_validate_source_data; [apply cache_sound_log | apply cache_sound_store].
  - apply preserves_load_step, cache_sound_log.
Qed.

Lemma main_flow_ungated transform_batch configs date w :
  cache_sound w →
  ComplexPipeline.main_flow transform_batch configs date w
  = for_each configs (validate_then_load transform_batch date "snowflake-prod" "data-lake") w.
Proof.
  unfold ComplexPipeline.main_flow. revert w.
  induction configs as [|config rest IH]; intros w Hw; simpl; [reflexivity|].
  unfold mbind, M_bind. rewrite (process_config_ungated _ _ _ _ _ _ Hw).
  pose proof (validate_then_load_sound transform_batch date
                "snowflake-prod" "data-lake" config w Hw) as Hw1.
  destruct (validate_then_load _ _ _ _ _ w) as [[e|u] w1]; [reflexivity|].
  apply IH, Hw1.
Qed.

(** C10: whenever validation reads its source and returns, the result has
    [data_types_match] and [null_check_passed] both true, whatever the data;
    the data quality flow then does nothing, and in a run whose cache is
    sound the gate on [null_check_passed] never blocks a table: [main_flow]
    is the loop that validates and then loads, for every table. *)
Theorem null_check_gate_never_blocks transform_batch s3_path table_config s3_bucket
    w v w' configs date w0 :
  ComplexPipeline.validate_source_data_body s3_path table_config s3_bucket w = (inr v, w') →
  cache_sound w0 →
  data_types_match v = true ∧ null_check_passed v = true
  ∧ ComplexPipeline.data_quality_flow table_config v w' = (inr (), w')
  ∧ ComplexPipeline.main_flow transform_batch configs date w0
    = for_each configs
        (validate_then_load transform_batch date "snowflake-prod" "data-lake") w0.
Proof.
  intros Hbody Hw0.
  pose proof (validate_source_data_body_flags _ _ _ _ _ _ Hbody) as Hflags.
  split; [apply Hflags|]. split; [apply Hflags|]. split.
  - apply data_quality_flow_silent, Hflags.
  - apply main_flow_ungated, Hw0.
Qed.

Lemma null_check_gate_never_blocks_witness :
  let r := ComplexPipeline.validate_source_data_body "raw/sales/2024/01/04"
             Scenario.sales "data-lake" Scenario.null_key_world in
  r.1 = inr {| total_rows := 2; missing_pk := true;
               data_types_match := true; null_check_passed := true |}
  ∧ ComplexPipeline.main_flow id [Scenario.sales] "2024/01/04" Scenario.null_key_world
    = for_each [Scenario.sales]
        (validate_then_load id "2024/01/04" "snowflake-prod" "data-lake")
        Scenario.null_key_world.
Proof.
  intros r. split; [vm_compute; reflexivity|].
  eapply (null_check_gate_never_blocks id "raw/sales/2024/01/04" Scenario.sales
            "data-lake" Scenario.null_key_world _ r.2).
  - vm_compute. reflexivity.
  - apply cache_sound_initial.
Defined.

(** ** Incremental loading *)

(** C3: for a table configuration whose [incremental_column] is unset, the
    incremental flow fails with the configuration error of the code, the
    [ValueError] "Incremental column not configured", and leaves the world as
    it was: no watermark was read, no source data was read, and no load of
    any kind was started. *)
Theorem incremental_requires_column transform_batch table_config connector s3_bucket w :
  incremental_column table_config = None →
  ComplexPipeline.incremental_load_flow transform_batch table_config connector s3_bucket w
  = (inl (ValueError "Incremental column not configured"), w).
Proof.
  intros Hnone. unfold ComplexPipeline.incremental_load_flow.
  rewrite Hnone. reflexivity.
Qed.

Lemma incremental_requires_column_witness :
  incremental_column Scenario.products = None
  ∧ ComplexPipeline.incremental_load_flow id Scenario.products "snowflake-prod" "data-lake"
      Scenario.incremental_world
    = (inl (ValueError "Incremental column not configured"), Scenario.incremental_world).
Proof.
  split; [reflexivity|].
  apply (incremental_requires_column id Scenario.products). reflexivity.
Defined.

(** ** Chunking *)

Lemma chunks_concat {A} (b : nat) (l : list A) :
  (0 < b)%nat → concat (chunks b l) = l.
Proof.
  funelim (chunks b l); intros Hb; simp chunks; simpl.
  - reflexivity.
  - lia.
  - match goal with IH : _ → concat _ = _ |- _ => rewrite IH by lia end.
    rewrite take_drop. reflexivity.
Qed.

Lemma chunks_bounded {A} (b : nat) (l : list A) :
  Forall (λ c, (length c ≤ b)%nat) (chunks b l).
Proof.
  funelim (chunks b l); simp chunks; constructor.
  - simpl. rewrite length_take. lia.
  - assumption.
Qed.

Lemma chunks_count {A} (b : nat) (l : list A) :
  (0 < b)%nat →
  Z.of_nat (length (chunks b l)) = ceil_div (Z.of_nat (length l)) (Z.of_nat b).
Proof.
  unfold ceil_div. funelim (chunks b l); intros Hb; simp chunks.
  - simpl. symmetry. apply Z.div_small. lia.
  - lia.
  - match goal with IH : _ → Z.of_nat (length _) = _ |- _ => rename IH into IH' end.
    cbn [length]. rewrite Nat2Z.inj_succ, IH' by lia.
    rewrite length_drop.
    destruct (decide (b ≤ length l)%nat) as [Hle|Hgt].
    + replace (Z.of_nat (S (length l)) + Z.of_nat (S b) - 1)
        with ((Z.of_nat (length l - b) + Z.of_nat (S b) - 1) + 1 * Z.of_nat (S b)) by lia.
      rewrite Z.div_add by lia. lia.
    + replace (length l - b)%nat with 0%nat by lia.
      replace (Z.of_nat 0 + Z.of_nat (S b) - 1) with (Z.of_nat b) by lia.
      rewrite (Z.div_small (Z.of_nat b)) by lia.
      replace (Z.of_nat (S (length l)) + Z.of_nat (S b) - 1)
        with (Z.of_nat (length l) + 1 * Z.of_nat (S b)) by lia.
      rewrite Z.div_add by lia. rewrite Z.div_small by lia. lia.
Qed.

(** ** The retry policy *)

Lemma run_attempts_count {A} opts args (body : M A) retries_left run_count w :
  (run_count ≤ (run_attempts opts args body retries_left run_count w).1.2
   ≤ run_count + retries_left)%nat.
Proof.
  revert run_count w. induction retries_left as [|n IH]; intros run_count w; simpl;
    destruct (body _) as [[e|a] w1]; simpl; try lia.
  specialize (IH (S run_count)
                (log (EvTask (task_key opts) args
                        (AwaitingRetry (retry_delay opts run_count))) w1)).
  lia.
Qed.

(** C9 as the code has it: every task is declared with [retries = 3], so
    an invocation runs its body at most four times, the first attempt and
    three retries; exponential backoff is declared on
    [validate_source_data] alone, with 30 * 2^(k-1) seconds after the failed
    attempt [k]; the batch load and the dimension and fact loads retry with
    no delay. *)
Theorem retry_policy_as_declared :
  Forall (λ opts, retries opts = 3%nat) step_options
  ∧ retry_delay ComplexPipeline.validate_source_data_options <$> [1; 2; 3]%nat
    = (λ k, 30 * 2 ^ (Z.of_nat k - 1)) <$> [1; 2; 3]%nat
  ∧ Forall (λ opts, ∀ k, retry_delay opts k = 0)
      [ ComplexPipeline.process_data_batch_options;
        EtlPipeline.create_dimension_tables_options;
        EtlPipeline.load_dimension_table_options;
        EtlPipeline.load_fact_sales_options ]
  ∧ (∀ A opts args (body : M A) w,
       (run_attempts opts args body (retries opts) 1 w).1.2 ≤ S (retries opts))%nat.
Proof.
  split; [repeat constructor|]. split; [reflexivity|].
  split; [repeat constructor|].
  intros A opts args body w.
  pose proof (run_attempts_count opts args body (retries opts) 1 w). lia.
Qed.

(** Against C9 as stated: in a world where every upsert of a chunk fails,
    the batch load runs four times, not three, and the three retries are
    scheduled with no delay, where validation waits 30, 60 and 120
    seconds. *)
Lemma retry_policy_not_uniform :
  let batch := Scenario.products_frame [Scenario.product 1; Scenario.product 2] in
  let r := run_attempts ComplexPipeline.process_data_batch_options
             (ArgsBatch batch Scenario.products "snowflake-prod")
             (ComplexPipeline.process_data_batch_body id batch Scenario.products
                "snowflake-prod")
             3 1 Scenario.failing_chunk_world in
  let v := run_attempts ComplexPipeline.validate_source_data_options
             (ArgsValidate "raw/products/2024/01/04" Scenario.products "data-lake")
             (ComplexPipeline.validate_source_data_body "raw/products/2024/01/04"
                Scenario.products "data-lake")
             3 1 Scenario.missing_object_world in
  r.1.2 = 4%nat
  ∧ retry_delays_seen (trace r.2) = [0; 0; 0]
  ∧ retry_delays_seen (trace v.2) = [30; 60; 120].
Proof. vm_compute. repeat split; reflexivity. Qed.

(** ** The result cache *)

Lemma run_task_keeps_hash {A} opts args (body : M A) w :
  (∀ h, preserves (λ x, task_input_hash x = h) body) →
  task_input_hash (run_task opts args body w).2 = task_input_hash w.
Proof.
  intros Hb.
  apply (preserves_run_task (λ x, task_input_hash x = task_input_hash w)).
  - intros e x Hx. exact Hx.
  - apply Hb.
  - reflexivity.
Qed.

Lemma validate_source_data_body_keeps_hash s3_path table_config s3_bucket h :
  preserves (λ x, task_input_hash x = h)
    (ComplexPipeline.validate_source_data_body s3_path table_config s3_bucket).
Proof.
  apply preserves_validate_source_data_body. intros e x Hx. exact Hx.
Qed.

(** C7 as the code has it: [validate_source_data] is declared with a cache
    key.  After an invocation of it that succeeded, a second invocation with
    the same inputs is served from the cache: it returns the same result and
    adds nothing to the world but the record of the cache hit, so the body
    has run at most once.  The batch load and the dimension and fact loads
    are declared without a cache key, and calling them is running them. *)
Theorem validation_is_cached s3_path table_config s3_bucket w v w1 :
  ComplexPipeline.validate_source_data s3_path table_config s3_bucket w = (inr v, w1) →
  ComplexPipeline.validate_source_data s3_path table_config s3_bucket w1
  = (inr v, log (EvTask "validate_source_data"
                   (ArgsValidate s3_path table_config s3_bucket) Cached) w1)
  ∧ Forall (λ opts, cache_key_fn opts = false
                    ∧ ∀ A (H : Cacheable A) args (body : M A),
                        call_task opts args body = run_task opts args body)
      [ ComplexPipeline.process_data_batch_options;
        EtlPipeline.load_dimension_table_options;
        EtlPipeline.load_fact_sales_options ].
Proof.
  intros Hfirst. split; [|repeat constructor].
  revert Hfirst. unfold ComplexPipeline.validate_source_data, call_task. simpl.
  set (args := ArgsValidate s3_path table_config s3_bucket).
  set (body := ComplexPipeline.validate_source_data_body s3_path table_config s3_bucket).
  match goal with
  | |- context [cache w !! ?k ≫= ?f] => destruct (cache w !! k ≫= f) as [v0|] eqn:Hhit
  end.
  - intros [= <- <-]. simpl. rewrite Hhit. reflexivity.
  - pose proof (run_task_keeps_hash ComplexPipeline.validate_source_data_options
                  args body w
                  (validate_source_data_body_keeps_hash s3_path table_config s3_bucket))
      as Hhash.
    destruct (run_task _ args body w) as [[e|a] w'] eqn:Hrun; [intros [=]|].
    intros [= <- <-]. simpl in *. rewrite Hhash, lookup_insert_eq. reflexivity.
Qed.

Lemma validation_is_cached_witness :
  let call := ComplexPipeline.validate_source_data "raw/sales/2024/01/04"
                Scenario.sales "data-lake" in
  let w1 := (call Scenario.null_key_world).2 in
  (call w1).1 = (call Scenario.null_key_world).1
  ∧ downloads (trace (call w1).2) = ["raw/sales/2024/01/04"].
Proof.
  intros call w1.
  destruct (validation_is_cached "raw/sales/2024/01/04" Scenario.sales "data-lake"
              Scenario.null_key_world
              {| total_rows := 2; missing_pk := true;
                 data_types_match := true; null_check_passed := true |}
              w1 ltac:(vm_compute; reflexivity)) as [Hsecond _].
  unfold call. rewrite Hsecond. split; vm_compute; reflexivity.
Defined.

(** Against C7 as stated: two invocations of the batch load with the same
    inputs both do the work, the warehouse receives the batch twice. *)
Lemma batch_load_is_not_cached :
  let batch := Scenario.sales_frame [Scenario.sale1; Scenario.sale2] in
  let call := ComplexPipeline.process_data_batch id batch Scenario.sales "snowflake-prod" in
  let w1 := (call Scenario.incremental_world).2 in
  (call Scenario.incremental_world).1 = inr {| processed := 2; errors := 0 |}
  ∧ (call w1).1 = inr {| processed := 2; errors := 0 |}
  ∧ upserts (trace (call w1).2) = [("sales", batch); ("sales", batch)].
Proof. vm_compute. repeat split; reflexivity. Qed.

(** ** Watermarks *)

Lemma value_leb_refl (v : value) : value_leb v v = true.
Proof. unfold value_leb. rewrite bool_decide_eq_true_2 by reflexivity. apply orb_true_r. Qed.

Lemma incremental_load_flow_keeps_watermarks transform_batch table_config connector
    s3_bucket w :
  watermarks (ComplexPipeline.incremental_load_flow transform_batch table_config
                connector s3_bucket w).2
  = watermarks w.
Proof.
  apply (preserves_incremental_load_flow transform_batch
           (λ x, watermarks x = watermarks w)).
  - intros e x Hx. exact Hx.
  - reflexivity.
Qed.

(** C5 as the code has it.  In the scenario (table "sales", key
    [sale_id], incremental column [created_at], batch size 2, watermark
    2024-01-01, incoming rows dated 2024-01-02, 2024-01-03 and 2023-12-31)
    extraction returns exactly the first two rows, and the flow loads them
    as one batch of two rows whose metrics are processed 2, errors 0.  The
    flow never writes the Watermark Store: after every incremental run the
    store is the one read at the start, so in the scenario the watermark is
    still 2024-01-01, and in general every stored watermark is at least its
    value at the start. *)
Theorem incremental_run_keeps_watermark transform_batch table_config connector s3_bucket w :
  (∀ df, len (transform_batch df) = len df) →
  let first_two := Scenario.sales_frame [Scenario.sale1; Scenario.sale2] in
  let r := ComplexPipeline.incremental_load_flow transform_batch Scenario.sales
             "snowflake-prod" "data-lake" Scenario.incremental_world in
  let w' := (ComplexPipeline.incremental_load_flow transform_batch table_config
               connector s3_bucket w).2 in
  (ComplexPipeline.load_incremental_data "data-lake" Scenario.sales
     (Some (VDate 2024 1 1)) Scenario.incremental_world).1 = inr first_two
  ∧ r.1 = inr ()
  ∧ upserts (trace r.2) = [("sales", transform_batch first_two)]
  ∧ metrics_emitted (trace r.2) = [{| processed := 2; errors := 0 |}]
  ∧ watermarks r.2 !! ("sales", "created_at") = Some (VDate 2024 1 1)
  ∧ watermarks w' = watermarks w
  ∧ ∀ key v, watermarks w !! key = Some v →
             ∃ v', watermarks w' !! key = Some v' ∧ value_leb v v' = true.
Proof.
  intros Hlen first_two r w'.
  split; [vm_compute; reflexivity|].
  split; [vm_compute; reflexivity|].
  split; [vm_compute; reflexivity|].
  split.
  { transitivity [{| processed := len (transform_batch first_two); errors := 0 |}].
    - vm_compute. reflexivity.
    - rewrite Hlen. reflexivity. }
  split.
  { unfold r. rewrite incremental_load_flow_keeps_watermarks. vm_compute. reflexivity. }
  assert (watermarks w' = watermarks w) as Hsame
    by apply incremental_load_flow_keeps_watermarks.
  split; [exact Hsame|].
  intros key v Hv. exists v. rewrite Hsame. split; [exact Hv | apply value_leb_refl].
Qed.

Lemma incremental_run_keeps_watermark_witness :
  let r := ComplexPipeline.incremental_load_flow id Scenario.sales
             "snowflake-prod" "data-lake" Scenario.incremental_world in
  (∀ df, len (id df) = len df)
  ∧ r.1 = inr ()
  ∧ metrics_emitted (trace r.2) = [{| processed := 2; errors := 0 |}]
  ∧ watermarks r.2 = watermarks Scenario.incremental_world.
Proof.
  intros r.
  pose proof (incremental_run_keeps_watermark id Scenario.sales "snowflake-prod"
                "data-lake" Scenario.incremental_world (λ df, eq_refl))
    as (_ & Hr & _ & Hm & _ & Hw & _).
  split; [reflexivity|]. split; [exact Hr|]. split; [exact Hm | exact Hw].
Defined.

(** Against C5 as stated: after the successful run of the scenario the
    stored watermark is 2024-01-01, not 2024-01-03. *)
Lemma watermark_does_not_advance :
  let r := ComplexPipeline.incremental_load_flow id Scenario.sales
             "snowflake-prod" "data-lake" Scenario.incremental_world in
  r.1 = inr ()
  ∧ watermarks r.2 !! ("sales", "created_at") = Some (VDate 2024 1 1)
  ∧ watermarks r.2 !! ("sales", "created_at") ≠ Some (VDate 2024 1 3).
Proof.
  vm_compute. split; [reflexivity|]. split; [reflexivity|]. discriminate.
Qed.

(** ** Null keys *)

(** C2 on the code, at a landed "sales" object whose second row has a null
    [sale_id]: validation reports [missing_pk] and logs the error, but
    [null_check_passed] stays true, no data quality warning is raised, and
    the run goes on to load the table, null key included. *)
Lemma null_key_table_is_loaded :
  let r := ComplexPipeline.main_flow id [Scenario.sales] "2024/01/04"
             Scenario.null_key_world in
  let rows := [Scenario.sale1; Scenario.sale VNull (VDate 2024 1 3)] in
  (ComplexPipeline.validate_source_data "raw/sales/2024/01/04" Scenario.sales
     "data-lake" Scenario.null_key_world).1
  = inr {| total_rows := 2; missing_pk := true;
           data_types_match := true; null_check_passed := true |}
  ∧ r.1 = inr ()
  ∧ logged "error" (trace r.2) = ["Found null values in primary key column: sale_id"]
  ∧ logged "warning" (trace r.2) = []
  ∧ upserts (trace r.2) = [("sales", Scenario.sales_frame rows)].
Proof. vm_compute. repeat split; reflexivity. Qed.

(** ** Order of events *)

Lemma in_order_refl w : in_order [] w w.
Proof. exists []. split; [symmetry; apply app_nil_r | constructor]. Qed.

Lemma in_order_app es1 es2 w w1 w2 :
  in_order es1 w w1 → in_order es2 w1 w2 → in_order (es1 ++ es2) w w2.
Proof.
  intros (t1 & H1 & S1) (t2 & H2 & S2). exists (t1 ++ t2). split.
  - rewrite H2, H1, app_assoc. reflexivity.
  - apply sublist_app; assumption.
Qed.

Lemma in_order_log e w : in_order [e] w (log e w).
Proof. exists [e]. split; reflexivity. Qed.

Lemma in_order_weaken es w w' : in_order es w w' → in_order [] w w'.
Proof.
  intros (t & H & _). exists t. split; [exact H | apply sublist_nil_l].
Qed.

Lemma in_order_log_stable es w : log_stable (in_order es w).
Proof.
  intros e x Hx.
  replace es with (es ++ []) by apply app_nil_r.
  eapply in_order_app; [exact Hx|]. eapply in_order_weaken, in_order_log.
Qed.

(** A task that is not cached starts by entering the [Running] state. *)
Lemma run_task_starts {A} opts args (body : M A) w :
  (∀ P, log_stable P → preserves P body) →
  in_order [EvTask (task_key opts) args Running] w (run_task opts args body w).2.
Proof.
  intros Hbody. unfold run_task.
  set (P := in_order [EvTask (task_key opts) args Running] w).
  assert (log_stable P) as HP by apply in_order_log_stable.
  assert (P (run_attempts opts args body (retries opts) 1 w).2) as Hgoal.
  { destruct (retries opts) as [|n]; simpl;
      pose proof (Hbody P HP _ (in_order_log (EvTask (task_key opts) args Running) w)) as H1;
      destruct (body _) as [[e|a] w1]; simpl in *; try (apply HP, H1).
    apply (preserves_run_attempts P HP opts args body (Hbody P HP)), HP, H1. }
  destruct (run_attempts _ _ _ _ _ _) as [[r n] w1]. exact Hgoal.
Qed.

(** ** Frame rules of the tasks of etl_pipeline.py *)

Section EtlFrame.

Import EtlPipeline.

Context (P : world → Prop) (P_log : log_stable P).

Lemma preserves_load_dimension_table_body connector table_name transformation_query :
  preserves P (load_dimension_table_body connector table_name transformation_query).
Proof. unfold load_dimension_table_body, get_connection, execute. frame. Qed.

Lemma preserves_load_dimension_table connector table_name transformation_query :
  preserves P (load_dimension_table connector table_name transformation_query).
Proof.
  unfold load_dimension_table.
  apply (preserves_run_task P P_log), preserves_load_dimension_table_body.
Qed.

Lemma preserves_load_fact_sales_body connector :
  preserves P (load_fact_sales_body connector).
Proof. unfold load_fact_sales_body, get_connection, execute. frame. Qed.

Lemma preserves_load_fact_sales connector :
  preserves P (load_fact_sales connector).
Proof.
  unfold load_fact_sales.
  apply (preserves_run_task P P_log), preserves_load_fact_sales_body.
Qed.

End EtlFrame.

(** ** The task runner *)

Lemma run_futures_nil picks w : EtlPipeline.run_futures picks [] w = ([], w).
Proof. induction picks as [|i rest IH]; simpl; [reflexivity | exact IH]. Qed.

Lemma run_future_spec i pool w pool' w' :
  EtlPipeline.run_future i pool w = (pool', w') →
  pool_ok pool →
  pool_ok pool'
  ∧ EtlPipeline.future_args <$> pool' = EtlPipeline.future_args <$> pool
  ∧ (∀ P, log_stable P → P w → P w')
  ∧ terminal i pool'
  ∧ (∀ j, terminal j pool → terminal j pool').
Proof.
  unfold EtlPipeline.run_future. intros Hrun Hok.
  destruct (pool !! i) as [f|] eqn:Hi.
  2: { injection Hrun as <- <-. repeat split; auto.
       intros f. rewrite Hi. discriminate. }
  destruct (EtlPipeline.future_result f) as [r0|] eqn:Hres.
  { injection Hrun as <- <-. repeat split; auto.
    intros f0. rewrite Hi. intros [= <-]. rewrite Hres. discriminate. }
  pose proof (proj1 (Forall_lookup _ _) Hok i f Hi) as Hf.
  destruct (EtlPipeline.future_run f w) as [r w1] eqn:Hfr.
  injection Hrun as <- <-.
  assert (i < length pool)%nat as Hlt by (eapply lookup_lt_Some, Hi).
  repeat split.
  - apply Forall_insert; [exact Hok | exact Hf].
  - rewrite list_fmap_insert. apply list_insert_id.
    rewrite list_lookup_fmap, Hi. reflexivity.
  - intros P HP Hw. pose proof (Hf P HP w Hw) as H1. rewrite Hfr in H1. exact H1.
  - intros f0. rewrite list_lookup_insert_eq by exact Hlt.
    intros [= <-]. discriminate.
  - intros j Hj f0. destruct (decide (i = j)) as [<-|Hne].
    + rewrite list_lookup_insert_eq by exact Hlt. intros [= <-]. discriminate.
    + rewrite list_lookup_insert_ne by exact Hne. apply Hj.
Qed.

Lemma run_futures_spec picks pool w pool' w' :
  EtlPipeline.run_futures picks pool w = (pool', w') →
  pool_ok pool →
  pool_ok pool'
  ∧ EtlPipeline.future_args <$> pool' = EtlPipeline.future_args <$> pool
  ∧ (∀ P, log_stable P → P w → P w')
  ∧ (∀ i, i ∈ picks → terminal i pool')
  ∧ (∀ j, terminal j pool → terminal j pool').
Proof.
  revert pool w. induction picks as [|i rest IH]; intros pool w; simpl.
  - intros [= <- <-] Hok. repeat split; auto. intros i Hi. inversion Hi.
  - destruct (EtlPipeline.run_future i pool w) as [pool1 w1] eqn:Hone.
    intros Hrest Hok.
    destruct (run_future_spec _ _ _ _ _ Hone Hok) as (Hok1 & Hargs1 & Hw1 & Hi1 & Hj1).
    destruct (IH _ _ Hrest Hok1) as (Hok2 & Hargs2 & Hw2 & Hi2 & Hj2).
    repeat split.
    + exact Hok2.
    + rewrite Hargs2. exact Hargs1.
    + intros P HP Hw. apply (Hw2 P HP), (Hw1 P HP), Hw.
    + intros j Hj. apply elem_of_cons in Hj as [->|Hj]; [apply Hj2, Hi1 | apply Hi2, Hj].
    + intros j Hj. apply Hj2, Hj1, Hj.
Qed.

Lemma run_futures_all pool w pool' w' :
  EtlPipeline.run_futures (seq 0 (length pool)) pool w = (pool', w') →
  pool_ok pool →
  Forall (λ f, EtlPipeline.future_result f ≠ None) pool'.
Proof.
  intros Hrun Hok.
  destruct (run_futures_spec _ _ _ _ _ Hrun Hok) as (_ & Hargs & _ & Hall & _).
  apply Forall_lookup. intros i f Hi. apply (Hall i); [|exact Hi].
  apply elem_of_seq. split; [lia|]. simpl.
  apply lookup_lt_Some in Hi.
  assert (length pool' = length pool) as <-; [|exact Hi].
  rewrite <- (length_fmap EtlPipeline.future_args pool'), Hargs. apply length_fmap.
Qed.

Lemma final_state_failed r pool f e :
  f ∈ pool → EtlPipeline.future_result f = Some (inl e) →
  ∃ e', EtlPipeline.final_state r pool = inl e'.
Proof.
  intros Hin Hres. unfold EtlPipeline.final_state.
  destruct r as [e0|u]; [eexists; reflexivity|].
  destruct (omap _ pool) as [|e1 rest] eqn:Homap; [|eexists; reflexivity].
  assert (e ∈ omap (λ f, match EtlPipeline.future_result f with
                         | Some (inl e) => Some e
                         | _ => None
                         end) pool) as Hmem.
  { apply list_elem_of_omap. exists f. split; [exact Hin|]. rewrite Hres. reflexivity. }
  rewrite Homap in Hmem. inversion Hmem.
Qed.

(** ** The dimensional model build *)

Lemma pool_ok_snoc pool key connector table_name transformation_query :
  pool_ok pool →
  pool_ok (pool ++ [{| EtlPipeline.future_key := key;
                       EtlPipeline.future_args :=
                         ArgsDimension connector table_name transformation_query;
                       EtlPipeline.future_run :=
                         EtlPipeline.load_dimension_table connector table_name
                           transformation_query;
                       EtlPipeline.future_result := None |}]).
Proof.
  intros Hok. apply Forall_app. split; [exact Hok|].
  constructor; [|constructor].
  intros P HP. simpl. apply preserves_load_dimension_table, HP.
Qed.

Lemma in_order_snoc es e w w1 :
  in_order es w w1 → in_order (es ++ [e]) w (log e w1).
Proof. intros H. eapply in_order_app; [exact H | apply in_order_log]. Qed.


(** ** Which exceptions can be raised *)

Lemma raises_ret {A} (E : exn → Prop) (a : A) : raises E (mret a).
Proof. intros w e w' [=]. Qed.

Lemma raises_raise {A} (E : exn → Prop) (e : exn) : E e → raises E (@raise A e).
Proof. intros He w e' w' [= <- _]. exact He. Qed.

Lemma raises_bind {A B} (E : exn → Prop) (m : M A) (f : A → M B) :
  raises E m → (∀ a, raises E (f a)) → raises E (m ≫= f).
Proof.
  intros Hm Hf w e w'. unfold mbind, M_bind.
  destruct (m w) as [[e0|a] w1] eqn:Hmw.
  - intros [= <- _]. eapply Hm, Hmw.
  - apply Hf.
Qed.

Lemma raises_try_except {A} (E : exn → Prop) (body : M A) (handler : exn → M A) :
  (∀ e, raises E (handler e)) → raises E (try_except body handler).
Proof.
  intros Hh w e w'. unfold try_except.
  destruct (body w) as [[e0|a] w1]; [apply Hh | intros [=]].
Qed.

Lemma raises_try_finally {A} (E : exn → Prop) (body : M A) (cleanup : M unit) :
  raises E body → raises E cleanup → raises E (try_finally body cleanup).
Proof.
  intros Hb Hc w e w'. unfold try_finally.
  destruct (body w) as [r w1] eqn:Hbody.
  destruct (cleanup w1) as [[e1|u] w2] eqn:Hclean.
  - intros [= <- _]. eapply Hc, Hclean.
  - intros [= -> _]. eapply Hb, Hbody.
Qed.

Lemma raises_inspect {A} (E : exn → Prop) (f : world → exn + A) :
  (∀ w e, f w = inl e → E e) → raises E (inspect f).
Proof. intros Hf w e w'. unfold inspect. intros [= Hfw _]. eapply Hf, Hfw. Qed.

Lemma raises_for_each {A} (E : exn → Prop) (xs : list A) (body : A → M unit) :
  (∀ x, raises E (body x)) → raises E (for_each xs body).
Proof.
  intros Hb. induction xs as [|x xs IH]; simpl.
  - apply raises_ret.
  - apply raises_bind; [apply Hb | intros _; exact IH].
Qed.

Lemma raises_emit (E : exn → Prop) (e : event) : raises E (emit e).
Proof. intros w e' w' [=]. Qed.

Lemma raises_perform (E : exn → Prop) (e : event) :
  E (InfraError "external operation failed") → raises E (perform e).
Proof.
  intros He w e' w'. unfold perform.
  destruct (fault w e (length (trace w))); [intros [= <- _]; exact He | intros [=]].
Qed.

Lemma raises_run_attempts {A} (E : exn → Prop) opts args (body : M A) :
  raises E body →
  ∀ retries_left run_count w e n w',
    run_attempts opts args body retries_left run_count w = (inl e, n, w') → E e.
Proof.
  intros Hb retries_left.
  induction retries_left as [|k IH]; intros run_count w e n w'; simpl;
    destruct (body _) as [[e0|b] w1] eqn:Hbody; intros Heq;
    try (injection Heq as <- _ _; eapply Hb, Hbody); try discriminate.
  eapply IH, Heq.
Qed.

Lemma raises_run_task {A} (E : exn → Prop) opts args (body : M A) :
  raises E body → raises E (run_task opts args body).
Proof.
  intros Hb w e w'. unfold run_task.
  destruct (run_attempts _ _ _ _ _ _) as [[r n] w1] eqn:Hrun.
  intros [= -> ->]. eapply raises_run_attempts; eauto.
Qed.

Lemma raises_call_task {A} `{Cacheable A} (E : exn → Prop) opts args (body : M A) :
  raises E body → raises E (call_task opts args body).
Proof.
  intros Hb w e w'. unfold call_task.
  destruct (cache_key_fn opts).
  - destruct (cache w !! _ ≫= of_cached) as [a|]; [intros [=]|].
    destruct (run_task opts args body w) as [[e0|a] w1] eqn:Hrun; [|intros [=]].
    intros [= <- _]. eapply (raises_run_task E), Hrun. exact Hb.
  - apply raises_run_task, Hb.
Qed.

(** ** Which events can be added to the trace *)

Section Emits.

Context (ok : event → Prop).

Lemma emits_ret {A} (a : A) : emits ok (mret a).
Proof. intros w. exists []. split; [symmetry; apply app_nil_r | constructor]. Qed.

Lemma emits_raise {A} (e : exn) : emits ok (@raise A e).
Proof. intros w. exists []. split; [symmetry; apply app_nil_r | constructor]. Qed.

Lemma emits_inspect {A} (f : world → exn + A) : emits ok (inspect f).
Proof. intros w. exists []. split; [symmetry; apply app_nil_r | constructor]. Qed.

Lemma emits_then {A} (m : M A) w w1 added :
  trace w1 = trace w ++ added → Forall ok added → emits ok m →
  ∃ added', trace (m w1).2 = trace w ++ added' ∧ Forall ok added'.
Proof.
  intros Heq Hok Hm. destruct (Hm w1) as (more & Hmore & Hokm).
  exists (added ++ more). split.
  - rewrite Hmore, Heq, app_assoc. reflexivity.
  - apply Forall_app. split; assumption.
Qed.

Lemma emits_bind {A B} (m : M A) (f : A → M B) :
  emits ok m → (∀ a, emits ok (f a)) → emits ok (m ≫= f).
Proof.
  intros Hm Hf w. unfold mbind, M_bind.
  destruct (Hm w) as (added & Heq & Hok).
  destruct (m w) as [[e|a] w1]; simpl in *.
  - exists added. split; assumption.
  - eapply emits_then; eauto.
Qed.

Lemma emits_try_except {A} (body : M A) (handler : exn → M A) :
  emits ok body → (∀ e, emits ok (handler e)) → emits ok (try_except body handler).
Proof.
  intros Hb Hh w. unfold try_except.
  destruct (Hb w) as (added & Heq & Hok).
  destruct (body w) as [[e|a] w1]; simpl in *.
  - eapply emits_then; eauto.
  - exists added. split; assumption.
Qed.

Lemma emits_try_finally {A} (body : M A) (cleanup : M unit) :
  emits ok body → emits ok cleanup → emits ok (try_finally body cleanup).
Proof.
  intros Hb Hc w. unfold try_finally.
  destruct (Hb w) as (added & Heq & Hok).
  destruct (body w) as [r w1]; simpl in *.
  destruct (emits_then cleanup w w1 added Heq Hok Hc) as (added' & Heq' & Hok').
  destruct (cleanup w1) as [[e|u] w2]; simpl in *; exists added'; split; assumption.
Qed.

Lemma emits_for_each {A} (xs : list A) (body : A → M unit) :
  (∀ x, emits ok (body x)) → emits ok (for_each xs body).
Proof.
  intros Hb. induction xs as [|x xs IH]; simpl.
  - apply emits_ret.
  - apply emits_bind; [apply Hb | intros _; exact IH].
Qed.

Lemma emits_for_each_in {A} (xs : list A) (body : A → M unit) :
  (∀ x, x ∈ xs → emits ok (body x)) → emits ok (for_each xs body).
Proof.
  induction xs as [|x xs IH]; intros Hb; simpl.
  - apply emits_ret.
  - apply emits_bind; [apply Hb; left | intros _].
    apply IH. intros y Hy. apply Hb. right. exact Hy.
Qed.

Lemma emits_emit (e : event) : ok e → emits ok (emit e).
Proof. intros He w. exists [e]. split; [reflexivity | repeat constructor; exact He]. Qed.

Lemma emits_perform (e : event) : ok e → emits ok (perform e).
Proof.
  intros He w. exists [e]. unfold perform.
  destruct (fault w e (length (trace w))); (split; [reflexivity | repeat constructor; exact He]).
Qed.

Lemma emits_log w w1 added e :
  trace w1 = trace w ++ added → Forall ok added → ok e →
  ∃ added', trace (log e w1) = trace w ++ added' ∧ Forall ok added'.
Proof.
  intros Heq Hok He. exists (added ++ [e]). split.
  - simpl. rewrite Heq, app_assoc. reflexivity.
  - apply Forall_app. split; [exact Hok | repeat constructor; exact He].
Qed.

Lemma emits_run_attempts {A} opts args (body : M A) :
  (∀ st, ok (EvTask (task_key opts) args st)) → emits ok body →
  ∀ retries_left run_count w0 w added,
    trace w = trace w0 ++ added → Forall ok added →
    ∃ added', trace (run_attempts opts args body retries_left run_count w).2
              = trace w0 ++ added' ∧ Forall ok added'.
Proof.
  intros Htask Hb retries_left.
  induction retries_left as [|n IH]; intros run_count w0 w added Heq Hok; simpl;
    destruct (emits_log w0 w added (EvTask (task_key opts) args Running) Heq Hok (Htask _))
      as (a1 & Heq1 & Hok1);
    destruct (emits_then body w0 _ a1 Heq1 Hok1 Hb) as (a2 & Heq2 & Hok2);
    destruct (body _) as [[e|a] w1]; simpl in *;
    try (eapply emits_log; eauto).
  destruct (emits_log w0 w1 a2
              (EvTask (task_key opts) args (AwaitingRetry (retry_delay opts run_count)))
              Heq2 Hok2 (Htask _)) as (a3 & Heq3 & Hok3).
  eapply IH; eauto.
Qed.

Lemma emits_run_task {A} opts args (body : M A) :
  (∀ st, ok (EvTask (task_key opts) args st)) → emits ok body →
  emits ok (run_task opts args body).
Proof.
  intros Htask Hb w. unfold run_task.
  destruct (emits_run_attempts opts args body Htask Hb (retries opts) 1%nat w w []
              (eq_sym (app_nil_r _)) (Forall_nil_2 _)) as (added & Heq & Hok).
  destruct (run_attempts _ _ _ _ _ _) as [[r n] w1]. exists added. split; assumption.
Qed.

Lemma emits_call_task {A} `{Cacheable A} opts args (body : M A) :
  (∀ st, ok (EvTask (task_key opts) args st)) → emits ok body →
  emits ok (call_task opts args body).
Proof.
  intros Htask Hb w. unfold call_task.
  pose proof (emits_run_task opts args body Htask Hb w) as (added & Heq & Hok).
  destruct (cache_key_fn opts).
  - destruct (cache w !! _ ≫= of_cached) as [a|].
    + exists [EvTask (task_key opts) args Cached]. split; [reflexivity|].
      repeat constructor. apply Htask.
    + destruct (run_task opts args body w) as [[e|a] w1]; exists added; split; assumption.
  - exists added. split; assumption.
Qed.

End Emits.

Lemma emits_weaken {A} (ok ok' : event → Prop) (m : M A) :
  (∀ e, ok e → ok' e) → emits ok m → emits ok' m.
Proof.
  intros Himp Hm w. destruct (Hm w) as (added & Heq & Hok).
  exists added. split; [exact Heq | eapply Forall_impl; eauto].
Qed.

(** ** What validation reports *)

Lemma validate_primary_keys_result df_sample pks v0 w v w' :
  ComplexPipeline.validate_primary_keys df_sample pks v0 w = (inr v, w') →
  Forall (λ pk, pk ∈ df_columns df_sample) pks
  ∧ total_rows v = total_rows v0
  ∧ missing_pk v = missing_pk v0 || existsb (has_null df_sample) pks.
Proof.
  revert v0 w. induction pks as [|pk rest IH]; intros v0 w; simpl.
  - intros [= <- _]. repeat split; [constructor | symmetry; apply orb_false_r].
  - unfold has_null at 1, column.
    destruct (decide (pk ∈ df_columns df_sample)) as [Hin|Hout]; [|intros [=]].
    destruct (existsb isnull (cell pk <$> df_rows df_sample)) eqn:Hnull.
    + unfold mbind, M_bind, emit. intros Hrest.
      destruct (IH _ _ Hrest) as (Hcols & Hrows & Hmiss).
      repeat split; [constructor; assumption | exact Hrows |].
      rewrite Hmiss. simpl. rewrite !orb_true_r. reflexivity.
    + intros Hrest. destruct (IH _ _ Hrest) as (Hcols & Hrows & Hmiss).
      repeat split; [constructor; assumption | exact Hrows | exact Hmiss].
Qed.

Lemma validate_source_data_body_inv s3_path table_config s3_bucket w v w' :
  ComplexPipeline.validate_source_data_body s3_path table_config s3_bucket w = (inr v, w') →
  ∃ table w1 w2,
    s3 w !! s3_path = Some table
    ∧ ComplexPipeline.validate_primary_keys (head 1000 table) (pk_columns table_config)
        {| total_rows := len table; missing_pk := false;
           data_types_match := true; null_check_passed := true |} w1
      = (inr v, w2).
Proof.
  unfold ComplexPipeline.validate_source_data_body, try_except, download_object,
    create_markdown_artifact.
  unfold mbind, M_bind, perform, inspect, emit, raise. simpl.
  destruct (fault w _ _); [intros [=]|].
  change (s3 (log (EvDownload s3_bucket s3_path) w)) with (s3 w).
  destruct (s3 w !! s3_path) as [table|]; [|intros [=]].
  destruct (ComplexPipeline.validate_primary_keys _ _ _ _) as [[e|v0] w2] eqn:Hpk;
    [intros [=]|].
  destruct (fault w2 _ _); [intros [=]|].
  intros [= <- _]. exists table. do 2 eexists. split; [reflexivity | exact Hpk].
Qed.

Lemma validate_source_data_body_result s3_path table_config s3_bucket w v w' :
  ComplexPipeline.validate_source_data_body s3_path table_config s3_bucket w = (inr v, w') →
  ∃ table,
    s3 w !! s3_path = Some table
    ∧ total_rows v = len table
    ∧ missing_pk v = existsb (has_null (head 1000 table)) (pk_columns table_config)
    ∧ Forall (λ pk, pk ∈ df_columns table) (pk_columns table_config).
Proof.
  intros Hbody.
  destruct (validate_source_data_body_inv _ _ _ _ _ _ Hbody) as (table & w1 & w2 & Hs3 & Hpk).
  destruct (validate_primary_keys_result _ _ _ _ _ _ Hpk) as (Hcols & Hrows & Hmiss).
  exists table. repeat split; assumption.
Qed.

(** X1: when validation of an object returns, [total_rows] is the number
    of rows of the whole object, every declared key column is a column of
    the object, and [missing_pk] tells exactly whether some declared key
    column has a null among the first 1000 rows. *)
Theorem validation_result_characterised s3_path table_config s3_bucket w v w' :
  ComplexPipeline.validate_source_data_body s3_path table_config s3_bucket w = (inr v, w') →
  ∃ table,
    s3 w !! s3_path = Some table
    ∧ total_rows v = len table
    ∧ missing_pk v = existsb (has_null (head 1000 table)) (pk_columns table_config)
    ∧ Forall (λ pk, pk ∈ df_columns table) (pk_columns table_config).
Proof. apply validate_source_data_body_result. Qed.

Lemma validation_result_characterised_witness :
  let r := ComplexPipeline.validate_source_data_body "raw/sales/2024/01/04"
             Scenario.sales "data-lake" Scenario.null_key_world in
  ∃ table,
    s3 Scenario.null_key_world !! "raw/sales/2024/01/04" = Some table
    ∧ len table = 2%nat
    ∧ existsb (has_null (head 1000 table)) ["sale_id"] = true.
Proof.
  intros r.
  destruct (validation_result_characterised "raw/sales/2024/01/04" Scenario.sales
              "data-lake" Scenario.null_key_world
              {| total_rows := 2; missing_pk := true;
                 data_types_match := true; null_check_passed := true |}
              r.2 ltac:(vm_compute; reflexivity)) as (table & Hs3 & Hrows & Hmiss & _).
  exists table. split; [exact Hs3|]. split; [symmetry; exact Hrows | symmetry; exact Hmiss].
Defined.

(** X2: validation looks at the first 1000 rows only: two objects with the
    same columns and the same first 1000 rows get the same [missing_pk],
    whatever the rows after them hold. *)
Theorem validation_reads_sample_only s3_path table_config s3_bucket
    w1 w2 table1 table2 v1 v2 w1' w2' :
  s3 w1 !! s3_path = Some table1 →
  s3 w2 !! s3_path = Some table2 →
  df_columns table1 = df_columns table2 →
  take 1000 (df_rows table1) = take 1000 (df_rows table2) →
  ComplexPipeline.validate_source_data_body s3_path table_config s3_bucket w1 = (inr v1, w1') →
  ComplexPipeline.validate_source_data_body s3_path table_config s3_bucket w2 = (inr v2, w2') →
  missing_pk v1 = missing_pk v2.
Proof.
  intros Hs1 Hs2 Hcols Hrows Hb1 Hb2.
  destruct (validate_source_data_body_result _ _ _ _ _ _ Hb1) as (t1 & Ht1 & _ & Hm1 & _).
  destruct (validate_source_data_body_result _ _ _ _ _ _ Hb2) as (t2 & Ht2 & _ & Hm2 & _).
  rewrite Hs1 in Ht1. rewrite Hs2 in Ht2.
  injection Ht1 as <-. injection Ht2 as <-.
  rewrite Hm1, Hm2. unfold head. rewrite Hcols, Hrows. reflexivity.
Qed.

Lemma raises_validate_source_data s3_path table_config s3_bucket :
  raises (λ e, e = TypeError "exceptions must derive from BaseException")
    (ComplexPipeline.validate_source_data s3_path table_config s3_bucket).
Proof.
  unfold ComplexPipeline.validate_source_data.
  apply raises_call_task.
  unfold ComplexPipeline.validate_source_data_body.
  apply raises_try_except. intros e.
  apply raises_bind; [apply raises_emit | intros _].
  apply raises_raise. reflexivity.
Qed.

(** X3: whatever goes wrong inside validation, the task ends with the same
    exception, also after its retries: the [TypeError] that Python raises
    for [raise Failed(message=str(e))], where [Failed] builds a [State] and
    not an exception.  The message of the error that went wrong is not in
    it. *)
Theorem validation_raises_type_error s3_path table_config s3_bucket :
  raises (λ e, e = TypeError "exceptions must derive from BaseException")
    (ComplexPipeline.validate_source_data s3_path table_config s3_bucket).
Proof. apply raises_validate_source_data. Qed.

Lemma validate_primary_keys_missing df_sample pks :
  ¬ Forall (λ pk, pk ∈ df_columns df_sample) pks →
  ∀ v0 w, ∃ found pk rest w',
    pks = found ++ pk :: rest
    ∧ Forall (λ k, k ∈ df_columns df_sample) found
    ∧ (pk ∉ df_columns df_sample)
    ∧ ComplexPipeline.validate_primary_keys df_sample pks v0 w = (inl (KeyError pk), w').
Proof.
  induction pks as [|pk rest IH]; intros Hnot v0 w; simpl.
  - exfalso. apply Hnot. constructor.
  - unfold column.
    destruct (decide (pk ∈ df_columns df_sample)) as [Hin|Hout].
    + assert (¬ Forall (λ pk, pk ∈ df_columns df_sample) rest) as Hrest.
      { intros Hall. apply Hnot. constructor; assumption. }
      destruct (existsb isnull _).
      * unfold mbind, M_bind, emit.
        destruct (IH Hrest (set_missing_pk true v0)
                    (log (EvLog "error" ("Found null values in primary key column: " ++ pk)) w))
          as (found & pk' & rest' & w' & Hsplit & Hfound & Hout' & Hrun).
        exists (pk :: found), pk', rest', w'.
        split; [rewrite Hsplit; reflexivity|]. split; [constructor; assumption|].
        split; [exact Hout' | exact Hrun].
      * destruct (IH Hrest v0 w)
          as (found & pk' & rest' & w' & Hsplit & Hfound & Hout' & Hrun).
        exists (pk :: found), pk', rest', w'.
        split; [rewrite Hsplit; reflexivity|]. split; [constructor; assumption|].
        split; [exact Hout' | exact Hrun].
    + exists [], pk, rest, w. split; [reflexivity|]. split; [constructor|].
      split; [exact Hout | reflexivity].
Qed.

(** X4: when the object can be read but lacks a declared key column,
    validation fails at the first declared key column [pk] that the object
    does not have: the body logs "Validation failed: " followed by
    [repr(pk)], the text of a [KeyError], and ends with the [TypeError] of
    its handler. *)
Theorem validation_fails_on_missing_column s3_path table_config s3_bucket w table :
  s3 w !! s3_path = Some table →
  fault w (EvDownload s3_bucket s3_path) (length (trace w)) = false →
  ¬ Forall (λ pk, pk ∈ df_columns table) (pk_columns table_config) →
  ∃ found pk rest w0,
    pk_columns table_config = found ++ pk :: rest
    ∧ Forall (λ k, k ∈ df_columns table) found
    ∧ (pk ∉ df_columns table)
    ∧ ComplexPipeline.validate_source_data_body s3_path table_config s3_bucket w
      = (inl (TypeError "exceptions must derive from BaseException"),
         log (EvLog "error" ("Validation failed: " ++ repr pk)) w0).
Proof.
  intros Hs3 Hfault Hnot.
  destruct (validate_primary_keys_missing (head 1000 table) (pk_columns table_config) Hnot
              {| total_rows := len table; missing_pk := false;
                 data_types_match := true; null_check_passed := true |}
              (log (EvDownload s3_bucket s3_path) w))
    as (found & pk & rest & w' & Hsplit & Hfound & Hout & Hrun).
  exists found, pk, rest, w'.
  split; [exact Hsplit|]. split; [exact Hfound|]. split; [exact Hout|].
  unfold ComplexPipeline.validate_source_data_body, try_except, download_object.
  unfold mbind, M_bind, perform, inspect. simpl.
  rewrite Hfault. change (s3 (log (EvDownload s3_bucket s3_path) w)) with (s3 w).
  rewrite Hs3, Hrun. reflexivity.
Qed.

Lemma validation_fails_on_missing_column_witness :
  let run := ComplexPipeline.validate_source_data_body "raw/sales" Scenario.products
               "data-lake" Scenario.incremental_world in
  logged "error" (trace run.2) = ["Validation failed: 'product_id'"]
  ∧ ∃ found pk rest w0,
      pk_columns Scenario.products = found ++ pk :: rest
      ∧ Forall (λ k, k ∈ ["sale_id"; "created_at"]) found
      ∧ (pk ∉ ["sale_id"; "created_at"])
      ∧ run = (inl (TypeError "exceptions must derive from BaseException"),
               log (EvLog "error" ("Validation failed: " ++ repr pk)) w0).
Proof.
  intros run. split; [vm_compute; reflexivity|].
  apply (validation_fails_on_missing_column "raw/sales" Scenario.products "data-lake"
           Scenario.incremental_world
           (Scenario.sales_frame [Scenario.sale1; Scenario.sale2; Scenario.sale3])).
  - vm_compute. reflexivity.
  - reflexivity.
  - intros Hall. inversion Hall as [|pk rest Hin _]; subst.
    vm_compute in Hin. repeat (apply elem_of_cons in Hin as [Hin|Hin]; [discriminate Hin|]).
    inversion Hin.
Defined.

(** X7: a validation that fails leaves the result cache as it was, and the
    cache holds no result for the call: nothing is stored for a failed
    call, so the next call with the same inputs finds nothing to reuse. *)
Theorem failed_validation_is_not_cached s3_path table_config s3_bucket w e w' :
  ComplexPipeline.validate_source_data s3_path table_config s3_bucket w = (inl e, w') →
  cache w' = cache w
  ∧ cache w' !! task_input_hash w' "validate_source_data"
                  (ArgsValidate s3_path table_config s3_bucket)
      ≫= @of_cached ValidationResult _ = None.
Proof.
  unfold ComplexPipeline.validate_source_data, call_task. simpl.
  match goal with
  | |- context [cache w !! ?k ≫= ?f] =>
      destruct (cache w !! k ≫= f) as [v0|] eqn:Hmiss
  end; [intros [=]|].
  assert (log_stable (λ x, cache x = cache w)) as Hlog by (intros e0 x Hx; exact Hx).
  pose proof (preserves_run_task (λ x, cache x = cache w) Hlog
                ComplexPipeline.validate_source_data_options
                (ArgsValidate s3_path table_config s3_bucket)
                (ComplexPipeline.validate_source_data_body s3_path table_config s3_bucket)
                (preserves_validate_source_data_body _ Hlog _ _ _)
                w eq_refl) as Hkeep.
  pose proof (run_task_keeps_hash ComplexPipeline.validate_source_data_options
                (ArgsValidate s3_path table_config s3_bucket)
                (ComplexPipeline.validate_source_data_body s3_path table_config s3_bucket)
                w (validate_source_data_body_keeps_hash _ _ _)) as Hhash.
  destruct (run_task _ _ _ w) as [[e0|a] w1]; [|intros [=]].
  intros [= _ <-]. cbn [snd] in Hkeep, Hhash. rewrite Hkeep, Hhash. split; [reflexivity|].
  exact Hmiss.
Qed.

Lemma failed_validation_is_not_cached_witness :
  let r := ComplexPipeline.validate_source_data "raw/products/2024/01/04"
             Scenario.products "data-lake" Scenario.missing_object_world in
  r.1 = inl (TypeError "exceptions must derive from BaseException")
  ∧ cache r.2 = cache Scenario.missing_object_world.
Proof.
  intros r. split; [vm_compute; reflexivity|].
  refine (proj1 (failed_validation_is_not_cached "raw/products/2024/01/04"
                   Scenario.products "data-lake" Scenario.missing_object_world
                   (TypeError "exceptions must derive from BaseException") r.2 _)).
  vm_compute. reflexivity.
Defined.

Lemma validation_reads_sample_only_witness :
  let rows := replicate 1000 Scenario.sale1 in
  let table1 := Scenario.sales_frame (rows ++ [Scenario.sale VNull (VDate 2024 1 3)]) in
  let table2 := Scenario.sales_frame rows in
  let w1 := Scenario.initial (<["raw/sales" := table1]> ∅) ∅ Scenario.no_fault in
  let w2 := Scenario.initial (<["raw/sales" := table2]> ∅) ∅ Scenario.no_fault in
  let v1 := {| total_rows := 1001; missing_pk := false;
               data_types_match := true; null_check_passed := true |} in
  let v2 := {| total_rows := 1000; missing_pk := false;
               data_types_match := true; null_check_passed := true |} in
  (ComplexPipeline.validate_source_data_body "raw/sales" Scenario.sales "data-lake" w1).1
  = inr v1
  ∧ (ComplexPipeline.validate_source_data_body "raw/sales" Scenario.sales "data-lake" w2).1
    = inr v2
  ∧ missing_pk v1 = missing_pk v2.
Proof.
  intros rows table1 table2 w1 w2 v1 v2.
  assert ((ComplexPipeline.validate_source_data_body "raw/sales" Scenario.sales
             "data-lake" w1).1 = inr v1) as H1 by (vm_compute; reflexivity).
  assert ((ComplexPipeline.validate_source_data_body "raw/sales" Scenario.sales
             "data-lake" w2).1 = inr v2) as H2 by (vm_compute; reflexivity).
  split; [exact H1|]. split; [exact H2|].
  destruct (ComplexPipeline.validate_source_data_body "raw/sales" Scenario.sales
              "data-lake" w1) as [r1 w1'] eqn:Hb1.
  destruct (ComplexPipeline.validate_source_data_body "raw/sales" Scenario.sales
              "data-lake" w2) as [r2 w2'] eqn:Hb2.
  simpl in H1, H2. subst r1 r2.
  apply (validation_reads_sample_only "raw/sales" Scenario.sales "data-lake"
           w1 w2 table1 table2 v1 v2 w1' w2').
  - apply lookup_insert_eq.
  - apply lookup_insert_eq.
  - reflexivity.
  - unfold table1, table2, Scenario.sales_frame. cbn [df_rows].
    rewrite take_app_le by (unfold rows; rewrite length_replicate; lia).
    reflexivity.
  - exact Hb1.
  - exact Hb2.
Defined.

(** ** Tactics for the two disciplines *)

Ltac raising :=
  repeat first
    [ match goal with |- ∀ _, _ => intro end
    | apply raises_ret | apply raises_emit
    | apply raises_bind | apply raises_try_except | apply raises_try_finally
    | apply raises_for_each | apply raises_run_task
    | apply raises_perform; exact I
    | apply raises_raise; first [exact I | reflexivity]
    | match goal with
      | |- raises _ (if ?b then _ else _) => destruct b
      | |- raises _ (match ?x with _ => _ end) => destruct x
      end ].

Ltac emitting side :=
  repeat first
    [ match goal with |- ∀ _, _ => intro end
    | apply emits_ret | apply emits_raise | apply emits_inspect
    | apply emits_bind | apply emits_try_except | apply emits_try_finally
    | apply emits_for_each
    | apply emits_emit; side
    | apply emits_perform; side
    | apply emits_run_task; [intro; side|]
    | match goal with
      | |- emits _ (if ?b then _ else _) => destruct b
      | |- emits _ (match ?x with _ => _ end) => destruct x
      end ].

(** ** The connection of a batch load *)

Lemma snowflake_connection_closes {A} (ok : event → Prop) connector (body : M A) w :
  emits ok body →
  fault w (EvConnect connector) (length (trace w)) = false →
  ∃ mid,
    trace (ComplexPipeline.snowflake_connection connector body w).2
    = trace w ++ [EvConnect connector] ++ mid ++ [EvClose connector]
    ∧ Forall ok mid.
Proof.
  intros Hbody Hfault.
  unfold ComplexPipeline.snowflake_connection, try_finally.
  unfold mbind, M_bind, perform at 1. rewrite Hfault.
  destruct (Hbody (log (EvConnect connector) w)) as (mid & Heq & Hok).
  destruct (body _) as [r w1]. simpl in Heq.
  exists mid. split; [|exact Hok].
  unfold perform. destruct (fault w1 _ _); simpl; rewrite Heq, <- !app_assoc; reflexivity.
Qed.

(** X5: once the connection of a batch load has been opened it is closed,
    whatever happens to the batch: the events of the load are the opening,
    then only upserts and metrics for the table of the batch and log
    lines, then the closing. *)
Theorem batch_connection_is_closed transform_batch batch_df table_config connector w :
  fault w (EvConnect connector) (length (trace w)) = false →
  ∃ mid,
    trace (ComplexPipeline.process_data_batch_body transform_batch batch_df
             table_config connector w).2
    = trace w ++ [EvConnect connector] ++ mid ++ [EvClose connector]
    ∧ Forall (batch_event table_config) mid.
Proof.
  intros Hfault. unfold ComplexPipeline.process_data_batch_body.
  apply snowflake_connection_closes; [|exact Hfault].
  unfold ComplexPipeline.upsert_to_snowflake, ComplexPipeline.emit_batch_metrics.
  emitting ltac:(simpl; auto).
Qed.

Lemma batch_connection_is_closed_witness :
  let batch := Scenario.products_frame [Scenario.product 1; Scenario.product 2] in
  ∃ mid,
    trace (ComplexPipeline.process_data_batch_body id batch Scenario.products
             "snowflake-prod" Scenario.failing_chunk_world).2
    = [] ++ [EvConnect "snowflake-prod"] ++ mid ++ [EvClose "snowflake-prod"]
    ∧ Forall (batch_event Scenario.products) mid.
Proof.
  intros batch.
  apply (batch_connection_is_closed id batch Scenario.products "snowflake-prod"
           Scenario.failing_chunk_world).
  reflexivity.
Defined.

(** ** What a run can raise, and what it can touch *)

Lemma raises_download_object E s3_bucket path :
  (∀ msg, E (InfraError msg)) → raises E (download_object s3_bucket path).
Proof.
  intros HE. unfold download_object.
  apply raises_bind; [apply raises_perform, HE | intros _].
  apply raises_inspect. intros w e.
  destruct (s3 w !! path); [intros [=] | intros [= <-]; apply HE].
Qed.

Lemma raises_process_data_batch transform_batch batch_df table_config connector :
  raises task_failure
    (ComplexPipeline.process_data_batch transform_batch batch_df table_config connector).
Proof.
  unfold ComplexPipeline.process_data_batch. apply raises_call_task.
  unfold ComplexPipeline.process_data_batch_body, ComplexPipeline.snowflake_connection.
  raising.
Qed.

Lemma raises_load_step transform_batch config connector s3_bucket :
  raises task_failure
    (ComplexPipeline.load_step transform_batch config connector s3_bucket).
Proof.
  unfold ComplexPipeline.load_step.
  destruct (truthy (incremental_column config)) eqn:Htruthy.
  - unfold ComplexPipeline.incremental_load_flow. rewrite Htruthy. simpl.
    unfold ComplexPipeline.get_last_processed_value, ComplexPipeline.load_incremental_data.
    apply raises_bind.
    { apply raises_bind; [apply raises_perform; exact I | intros _].
      apply raises_inspect. intros w e [=]. }
    intros last. apply raises_bind.
    { apply raises_bind; [apply raises_download_object; intros; exact I | intros t].
      apply raises_ret. }
    intros new_data. destruct (negb (empty_df new_data)); [|apply raises_ret].
    apply raises_bind; [apply raises_process_data_batch | intros _; apply raises_ret].
  - unfold ComplexPipeline.full_load, ComplexPipeline.get_data_iterator.
    apply raises_bind.
    { apply raises_bind; [apply raises_download_object; intros; exact I | intros t].
      apply raises_ret. }
    intros data_iterator. apply raises_for_each. intros batch.
    apply raises_bind; [apply raises_process_data_batch | intros _; apply raises_ret].
Qed.

(** X6: a run of the main flow can only end with the [TypeError] that the
    handler of a task raises, or with the error of an external operation.
    It never ends with the [ValueError] of the incremental flow: the main
    flow enters that flow only for a configuration whose incremental column
    passes the very test the flow makes; nor with a raw [KeyError], which
    the handler of validation catches. *)
Theorem main_flow_raises_task_failures transform_batch configs date :
  raises task_failure (ComplexPipeline.main_flow transform_batch configs date).
Proof.
  unfold ComplexPipeline.main_flow. apply raises_for_each. intros config.
  unfold ComplexPipeline.process_config.
  apply raises_bind; [apply raises_emit | intros _].
  apply raises_bind.
  { intros w e w' Hrun.
    rewrite (raises_validate_source_data _ _ _ _ _ _ Hrun). reflexivity. }
  intros v. apply raises_bind.
  { unfold ComplexPipeline.data_quality_flow, create_markdown_artifact. raising. }
  intros _. destruct (null_check_passed v); [apply raises_load_step | apply raises_ret].
Qed.

Ltac emitting_tasks side :=
  repeat first
    [ match goal with |- ∀ _, _ => intro end
    | apply emits_ret | apply emits_raise | apply emits_inspect
    | apply emits_bind | apply emits_try_except | apply emits_try_finally
    | apply emits_for_each
    | apply emits_emit; side
    | apply emits_perform; side
    | apply emits_call_task; [intro; side|]
    | match goal with
      | |- emits _ (if ?b then _ else _) => destruct b
      | |- emits _ (match ?x with _ => _ end) => destruct x
      end ].

Lemma emits_validate_primary_keys (ok : event → Prop) df_sample pks v :
  (∀ level msg, ok (EvLog level msg)) →
  emits ok (ComplexPipeline.validate_primary_keys df_sample pks v).
Proof.
  intros Hlog. revert v. induction pks as [|pk rest IH]; intros v; simpl.
  - apply emits_ret.
  - destruct (column df_sample pk); [|apply emits_raise].
    destruct (existsb isnull _); [|apply IH].
    apply emits_bind; [apply emits_emit, Hlog | intros _; apply IH].
Qed.

Lemma emits_validate_source_data s3_path table_config s3_bucket :
  emits (validation_event s3_bucket s3_path table_config)
    (ComplexPipeline.validate_source_data s3_path table_config s3_bucket).
Proof.
  unfold ComplexPipeline.validate_source_data.
  apply emits_call_task; [intro; reflexivity|].
  unfold ComplexPipeline.validate_source_data_body, download_object,
    create_markdown_artifact.
  apply emits_try_except.
  - apply emits_bind.
    { apply emits_bind; [apply emits_perform; split; reflexivity | intros _].
      apply emits_inspect. }
    intros table. apply emits_bind.
    { apply emits_validate_primary_keys. intros; exact I. }
    intros v. apply emits_bind; [apply emits_perform; reflexivity | intros _].
    apply emits_ret.
  - intros e. apply emits_bind; [apply emits_emit; exact I | intros _].
    apply emits_raise.
Qed.

(** X8: validation only reads: all that a call of [validate_source_data]
    adds to the world are the states of its own task run, downloads of the
    one object it was given, its validation artifact and log lines.  It
    opens no warehouse connection, upserts nothing and reads no
    watermark. *)
Theorem validation_only_reads s3_path table_config s3_bucket :
  emits (validation_event s3_bucket s3_path table_config)
    (ComplexPipeline.validate_source_data s3_path table_config s3_bucket).
Proof. apply emits_validate_source_data. Qed.

Lemma emits_process_data_batch transform_batch configs batch_df config :
  config ∈ configs →
  emits (main_flow_event configs)
    (ComplexPipeline.process_data_batch transform_batch batch_df config "snowflake-prod").
Proof.
  intros Hin.
  assert (name config ∈ name <$> configs) as Hname by (apply list_elem_of_fmap_2, Hin).
  unfold ComplexPipeline.process_data_batch, ComplexPipeline.process_data_batch_body,
    ComplexPipeline.snowflake_connection, ComplexPipeline.upsert_to_snowflake,
    ComplexPipeline.emit_batch_metrics.
  emitting_tasks ltac:(simpl; auto).
Qed.

Lemma emits_load_step transform_batch configs config :
  config ∈ configs →
  emits (main_flow_event configs)
    (ComplexPipeline.load_step transform_batch config "snowflake-prod" "data-lake").
Proof.
  intros Hin.
  assert (name config ∈ name <$> configs) as Hname by (apply list_elem_of_fmap_2, Hin).
  pose proof (emits_process_data_batch transform_batch configs) as Hbatch.
  unfold ComplexPipeline.load_step, ComplexPipeline.incremental_load_flow,
    ComplexPipeline.full_load, ComplexPipeline.get_last_processed_value,
    ComplexPipeline.load_incremental_data, ComplexPipeline.get_data_iterator,
    download_object.
  repeat first
    [ match goal with |- ∀ _, _ => intro end
    | apply Hbatch; exact Hin
    | apply emits_ret | apply emits_raise | apply emits_inspect
    | apply emits_bind | apply emits_for_each
    | apply emits_perform; simpl; auto
    | match goal with
      | |- emits _ (if ?b then _ else _) => destruct b
      end ].
Qed.

(** X9: a run of the main flow stays within its configuration: it
    downloads from the bucket "data-lake" only, connects to "snowflake-prod"
    only, upserts, reports metrics and reads watermarks only for tables
    named in [configs], runs no task but validation and the batch load, and
    sends no SQL statement of its own. *)
Theorem main_flow_stays_within_configs transform_batch configs date :
  emits (main_flow_event configs) (ComplexPipeline.main_flow transform_batch configs date).
Proof.
  unfold ComplexPipeline.main_flow. apply emits_for_each_in. intros config Hin.
  unfold ComplexPipeline.process_config.
  apply emits_bind; [apply emits_emit; exact I | intros _].
  apply emits_bind.
  { eapply emits_weaken; [|apply emits_validate_source_data].
    intros [] He; simpl in *; intuition. }
  intros v. apply emits_bind.
  { unfold ComplexPipeline.data_quality_flow, create_markdown_artifact.
    destruct (negb (null_check_passed v)); [|apply emits_ret].
    apply emits_bind; [apply emits_emit; exact I | intros _].
    apply emits_perform. exact I. }
  intros _. destruct (null_check_passed v); [|apply emits_ret].
  apply emits_load_step, Hin.
Qed.

(** ** The tasks of etl_pipeline.py *)

Lemma get_connection_closes {A} (ok : event → Prop) connector (body : M A) :
  ok (EvConnect connector) → ok (EvClose connector) → emits ok body →
  emits ok (EtlPipeline.get_connection connector body).
Proof.
  intros Hopen Hclose Hbody. unfold EtlPipeline.get_connection.
  apply emits_bind; [apply emits_perform, Hopen | intros _].
  apply emits_try_finally; [exact Hbody | apply emits_perform, Hclose].
Qed.

(** X10: [create_raw_tables] sends nothing but [CREATE TABLE IF NOT EXISTS]
    statements for the five raw tables, all in RAW_DB.RAW, over the
    connector it was given: it truncates nothing and writes no row. *)
Theorem raw_tables_are_only_created connector :
  emits (raw_ddl_event connector) (EtlPipeline.create_raw_tables connector).
Proof.
  unfold EtlPipeline.create_raw_tables. apply emits_call_task; [intro; reflexivity|].
  unfold EtlPipeline.create_raw_tables_body.
  apply get_connection_closes; [reflexivity | reflexivity |].
  unfold EtlPipeline.DDL_STATEMENTS, EtlPipeline.execute. simpl.
  repeat (apply emits_bind;
          [apply emits_perform; simpl; split; [reflexivity|split; [reflexivity|set_solver]]
          | intros _]).
  apply emits_ret.
Qed.

(** X11: one run of the body of [load_dimension_table] sends at most two
    statements, the TRUNCATE of the dimension table and then the INSERT
    that refills it: the INSERT is never sent without the TRUNCATE before
    it, and the run succeeds only when both have been sent. *)
Theorem dimension_load_truncates_first connector table_name transformation_query w :
  let run := EtlPipeline.load_dimension_table_body connector table_name
               transformation_query w in
  let truncate := Truncate "ANALYTICS_DB" "ANALYTICS" table_name in
  let insert := format_query transformation_query "RAW_DB" "RAW" "ANALYTICS_DB" "ANALYTICS" in
  ∃ added,
    trace run.2 = trace w ++ added
    ∧ match run.1 with
      | inr _ => executed added = [truncate; insert]
      | inl _ => executed added = [] ∨ executed added = [truncate]
                 ∨ executed added = [truncate; insert]
      end.
Proof.
  intros run truncate insert. subst run.
  unfold EtlPipeline.load_dimension_table_body, EtlPipeline.get_connection,
    EtlPipeline.execute, try_finally.
  unfold mbind, M_bind, perform. simpl.
  repeat match goal with
         | |- context [fault ?a ?b ?c] => destruct (fault a b c)
         end;
    simpl; rewrite <- ?app_assoc; eexists; (split; [reflexivity|]); simpl; auto.
Qed.

(** X12: when [create_dimension_tables] fails, the dimensional model build
    ends there with its exception: no dimension load is submitted and the
    fact load is not called, under every schedule. *)
Theorem failed_creation_ends_build connector schedule w e w1 :
  EtlPipeline.create_dimension_tables connector w = (inl e, w1) →
  EtlPipeline.run_flow (EtlPipeline.load_dimensional_model_flow connector) schedule w
  = (inl e, [], w1).
Proof.
  intros Hcreate.
  unfold EtlPipeline.run_flow, EtlPipeline.load_dimensional_model_flow.
  cbn [app EtlPipeline.run_statements].
  rewrite run_futures_nil, Hcreate. reflexivity.
Qed.

Lemma failed_creation_ends_build_witness :
  let w := Scenario.initial ∅ ∅ (λ _ _, true) in
  let run := EtlPipeline.run_flow
               (EtlPipeline.load_dimensional_model_flow "snowflake-demo") [] w in
  run.1 = (inl (InfraError "external operation failed"), [])
  ∧ executed (trace run.2) = [].
Proof.
  intros w run. unfold run.
  rewrite (failed_creation_ends_build "snowflake-demo" [] w
             (InfraError "external operation failed")
             (EtlPipeline.create_dimension_tables "snowflake-demo" w).2)
    by (vm_compute; reflexivity).
  split; [reflexivity | vm_compute; reflexivity].
Defined.

(** ** The dimensional model build under every schedule *)

Lemma run_future_emits (ok : event → Prop) i pool w w0 added :
  Forall (λ f, emits ok (EtlPipeline.future_run f)) pool →
  trace w = trace w0 ++ added → Forall ok added →
  Forall (λ f, emits ok (EtlPipeline.future_run f)) (EtlPipeline.run_future i pool w).1
  ∧ ∃ added', trace (EtlPipeline.run_future i pool w).2 = trace w0 ++ added'
              ∧ Forall ok added'.
Proof.
  intros Hpool Heq Hok. unfold EtlPipeline.run_future.
  destruct (pool !! i) as [f|] eqn:Hi; [|split; eauto].
  destruct (EtlPipeline.future_result f); [split; eauto|].
  pose proof (proj1 (Forall_lookup _ _) Hpool i f Hi) as Hf.
  destruct (emits_then ok (EtlPipeline.future_run f) w0 w added Heq Hok Hf)
    as (added' & Heq' & Hok').
  destruct (EtlPipeline.future_run f w) as [r w1]. simpl in *. split; [|eauto].
  apply Forall_insert; [exact Hpool | exact Hf].
Qed.

Lemma run_futures_emits (ok : event → Prop) picks pool w w0 added :
  Forall (λ f, emits ok (EtlPipeline.future_run f)) pool →
  trace w = trace w0 ++ added → Forall ok added →
  Forall (λ f, emits ok (EtlPipeline.future_run f)) (EtlPipeline.run_futures picks pool w).1
  ∧ ∃ added', trace (EtlPipeline.run_futures picks pool w).2 = trace w0 ++ added'
              ∧ Forall ok added'.
Proof.
  revert pool w added. induction picks as [|i rest IH]; intros pool w added Hpool Heq Hok;
    simpl; [split; eauto|].
  destruct (run_future_emits ok i pool w w0 added Hpool Heq Hok)
    as (Hpool1 & added1 & Heq1 & Hok1).
  destruct (EtlPipeline.run_future i pool w) as [pool1 w1]. simpl in *.
  apply (IH pool1 w1 added1); assumption.
Qed.

Lemma run_statements_emits (ok : event → Prop) body schedule pool w w0 added :
  Forall (λ s, match s with
               | EtlPipeline.Call run => emits ok run
               | EtlPipeline.Submit key args run => ok (EvSubmit key args) ∧ emits ok run
               end) body →
  Forall (λ f, emits ok (EtlPipeline.future_run f)) pool →
  trace w = trace w0 ++ added → Forall ok added →
  Forall (λ f, emits ok (EtlPipeline.future_run f))
    (EtlPipeline.run_statements body schedule pool w).1.2
  ∧ ∃ added', trace (EtlPipeline.run_statements body schedule pool w).2 = trace w0 ++ added'
              ∧ Forall ok added'.
Proof.
  intros Hbody. revert schedule pool w added.
  induction Hbody as [|s rest Hs Hrest IH]; intros schedule pool w added Hpool Heq Hok;
    simpl; [split; eauto|].
  destruct (run_futures_emits ok (hd [] schedule) pool w w0 added Hpool Heq Hok)
    as (Hpool1 & added1 & Heq1 & Hok1).
  destruct (EtlPipeline.run_futures (hd [] schedule) pool w) as [pool1 w1]. simpl in *.
  destruct s as [run|key args run].
  - destruct (emits_then ok run w0 w1 added1 Heq1 Hok1 Hs) as (added2 & Heq2 & Hok2).
    destruct (run w1) as [[e|u] w2]; simpl in *; [split; eauto|].
    apply (IH _ _ _ added2); assumption.
  - destruct Hs as [Hsubmit Hrun].
    destruct (emits_log ok w0 w1 added1 (EvSubmit key args) Heq1 Hok1 Hsubmit)
      as (added2 & Heq2 & Hok2).
    apply (IH _ _ _ added2); [|assumption|assumption].
    apply Forall_app. split; [exact Hpool1|]. constructor; [exact Hrun | constructor].
Qed.

Lemma run_flow_emits (ok : event → Prop) body schedule w :
  Forall (λ s, match s with
               | EtlPipeline.Call run => emits ok run
               | EtlPipeline.Submit key args run => ok (EvSubmit key args) ∧ emits ok run
               end) body →
  ∃ added, trace (EtlPipeline.run_flow body schedule w).2 = trace w ++ added
           ∧ Forall ok added.
Proof.
  intros Hbody. unfold EtlPipeline.run_flow.
  destruct (run_statements_emits ok body schedule [] w w [] Hbody (Forall_nil_2 _)
              (eq_sym (app_nil_r _)) (Forall_nil_2 _)) as (Hpool & added & Heq & Hok).
  destruct (EtlPipeline.run_statements body schedule [] w) as [[r pool] w1]. simpl in *.
  destruct (run_futures_emits ok (seq 0 (length pool)) pool w1 w added Hpool Heq Hok)
    as (_ & added' & Heq' & Hok').
  destruct (EtlPipeline.run_futures (seq 0 (length pool)) pool w1) as [pool2 w2].
  simpl in *. eauto.
Qed.

Lemma emits_load_dimension_table connector table_name transformation_query :
  insert_into transformation_query
    ∈ ["DIM_PRODUCTS"; "DIM_LOCATIONS"; "DIM_CUSTOMERS"; "FACT_SALES"] →
  emits (model_build_event connector)
    (EtlPipeline.load_dimension_table connector table_name transformation_query).
Proof.
  intros Hinto. unfold EtlPipeline.load_dimension_table.
  apply emits_call_task; [intro; exact I|].
  unfold EtlPipeline.load_dimension_table_body.
  apply get_connection_closes; [reflexivity | reflexivity |].
  unfold EtlPipeline.execute.
  apply emits_bind; [apply emits_perform; split; reflexivity | intros _].
  apply emits_perform. simpl. auto.
Qed.

(** X13: under every schedule, a run of the dimensional model build sends
    statements to ANALYTICS_DB.ANALYTICS only, and the only tables it ever
    inserts into are DIM_PRODUCTS, DIM_LOCATIONS, DIM_CUSTOMERS and
    FACT_SALES.  DIM_DATES, which the query of the fact load joins against,
    is created but never filled by the build. *)
Theorem build_never_fills_dim_dates connector schedule w :
  (∃ added,
     trace (EtlPipeline.run_flow (EtlPipeline.load_dimensional_model_flow connector)
              schedule w).2 = trace w ++ added
     ∧ Forall (model_build_event connector) added)
  ∧ AnalyticsTable "DIM_DATES" ∈ select_from EtlPipeline.fact_sales_query
  ∧ "DIM_DATES" ∈ (λ entry, match entry.2 "" "" with
                            | CreateTableIfNotExists _ _ table => table
                            | _ => ""
                            end) <$> EtlPipeline.DIM_FACT_DDLS.
Proof.
  split; [|split; [set_solver | set_solver]].
  apply run_flow_emits.
  unfold EtlPipeline.load_dimensional_model_flow, EtlPipeline.dim_transforms.
  cbn [app fmap list_fmap fst snd].
  repeat constructor.
  - unfold EtlPipeline.create_dimension_tables.
    apply emits_call_task; [intro; exact I|].
    apply get_connection_closes; [reflexivity | reflexivity |].
    unfold EtlPipeline.DIM_FACT_DDLS, EtlPipeline.execute. simpl.
    repeat (apply emits_bind; [apply emits_perform; split; reflexivity | intros _]).
    apply emits_ret.
  - apply emits_load_dimension_table. set_solver.
  - apply emits_load_dimension_table. set_solver.
  - apply emits_load_dimension_table. set_solver.
  - unfold EtlPipeline.load_fact_sales.
    apply emits_call_task; [intro; exact I|].
    unfold EtlPipeline.load_fact_sales_body.
    apply get_connection_closes; [reflexivity | reflexivity |].
    unfold EtlPipeline.execute.
    apply emits_bind; [apply emits_perform; split; reflexivity | intros _].
    apply emits_perform. simpl. split; [reflexivity|]. split; [reflexivity|set_solver].
Qed.

(** ** Cached creation of the tables *)

Lemma call_task_hit_after_success opts args (body : M unit) w w1 :
  cache_key_fn opts = true →
  (∀ P, log_stable P → preserves P body) →
  call_task opts args body w = (inr (), w1) →
  call_task opts args body w1 = (inr (), log (EvTask (task_key opts) args Cached) w1).
Proof.
  intros Hkey Hbody. unfold call_task. rewrite Hkey.
  match goal with
  | |- context [cache w !! ?k ≫= ?f] => destruct (cache w !! k ≫= f) as [[]|] eqn:Hhit
  end.
  - intros [= <-]. cbn [cache task_input_hash log]. rewrite Hhit. reflexivity.
  - assert (log_stable (λ x, task_input_hash x = task_input_hash w)) as Hlog
      by (intros e x Hx; exact Hx).
    pose proof (preserves_run_task _ Hlog opts args body (Hbody _ Hlog) w eq_refl) as Hhash.
    destruct (run_task opts args body w) as [[e|[]] w'] eqn:Hrun; [intros [=]|].
    intros [= <-]. cbn [snd] in Hhash. cbn [cache task_input_hash store_result].
    rewrite Hhash, lookup_insert_eq. reflexivity.
Qed.

(** X14: the two tasks that create tables are cached: after a call of
    [create_raw_tables] or [create_dimension_tables] that succeeded, a second
    call with the same connector is served from the cache; it adds only the
    record of the cache hit, so no connection is opened and no statement is
    sent again. *)
Theorem table_creation_runs_once (raw : bool) connector w w1 :
  let create := if raw then EtlPipeline.create_raw_tables
                else EtlPipeline.create_dimension_tables in
  let key := if raw then "create_raw_tables" else "create_dimension_tables" in
  create connector w = (inr (), w1) →
  create connector w1 = (inr (), log (EvTask key (ArgsConnector connector) Cached) w1).
Proof.
  destruct raw; cbn zeta;
    unfold EtlPipeline.create_raw_tables, EtlPipeline.create_dimension_tables;
    apply call_task_hit_after_success; try reflexivity; intros P HP.
  - unfold EtlPipeline.create_raw_tables_body, EtlPipeline.get_connection,
      EtlPipeline.execute. frame.
  - unfold EtlPipeline.get_connection, EtlPipeline.execute. frame.
Qed.

Lemma table_creation_runs_once_witness :
  let w := Scenario.initial ∅ ∅ Scenario.no_fault in
  let w1 := (EtlPipeline.create_raw_tables "snowflake-demo" w).2 in
  (EtlPipeline.create_raw_tables "snowflake-demo" w).1 = inr ()
  ∧ length (executed (trace w1)) = 5%nat
  ∧ executed (trace (EtlPipeline.create_raw_tables "snowflake-demo" w1).2)
    = executed (trace w1).
Proof.
  intros w w1. split; [vm_compute; reflexivity|]. split; [vm_compute; reflexivity|].
  rewrite (table_creation_runs_once true "snowflake-demo" w w1)
    by (vm_compute; reflexivity).
  vm_compute. reflexivity.
Defined.

(** ** dtn3j.py: dicts and strings *)

Section Dicts.

Import DotToNeo4j.

Lemma dict_get_set_eq {V} (d : dict V) k v : dict_get (dict_set d k v) k = Some v.
Proof.
  induction d as [|[k' v'] rest IH]; simpl.
  - rewrite String.eqb_refl. reflexivity.
  - destruct (String.eqb k' k) eqn:Hk; simpl.
    + rewrite String.eqb_refl. reflexivity.
    + rewrite Hk. exact IH.
Qed.

Lemma dict_get_set_ne {V} (d : dict V) k k' v :
  k ≠ k' → dict_get (dict_set d k v) k' = dict_get d k'.
Proof.
  intros Hne. induction d as [|[k0 v0] rest IH]; simpl.
  - destruct (String.eqb_spec k k'); [contradiction | reflexivity].
  - destruct (String.eqb_spec k0 k) as [->|Hk0]; simpl.
    + destruct (String.eqb_spec k k'); [contradiction | reflexivity].
    + destruct (String.eqb k0 k'); [reflexivity | exact IH].
Qed.

Lemma dict_get_without_label (d : dict string) :
  dict_get (without_label d) "label" = None.
Proof.
  induction d as [|[k v] rest IH]; simpl; [reflexivity|].
  destruct (String.eqb k "label") eqn:Hk; simpl; [exact IH|].
  rewrite Hk. exact IH.
Qed.

Lemma dict_get_del (d : dict string) k : dict_get (dict_del d k) k = None.
Proof.
  induction d as [|[k' v] rest IH]; simpl; [reflexivity|].
  destruct (String.eqb k' k) eqn:Hk; simpl; [exact IH|].
  rewrite Hk. exact IH.
Qed.

Lemma split_first (sep : Ascii.ascii) (s : string) :
  ∃ first others,
    split sep s = first :: others
    ∧ contains sep first = false
    ∧ (contains sep s = false → first = s ∧ others = [])
    ∧ (contains sep s = true → others ≠ []).
Proof.
  induction s as [|c rest IH].
  - exists "", []. split; [reflexivity|]. split; [reflexivity|].
    split; [intros _; split; reflexivity | discriminate].
  - destruct IH as (first & others & Hsplit & Hfirst & Hnone & Hsome).
    cbn [split contains]. destruct (Ascii.eqb c sep) eqn:Hc.
    + exists "", (split sep rest). split; [reflexivity|]. split; [reflexivity|].
      split; [discriminate|]. intros _. rewrite Hsplit. discriminate.
    + rewrite Hsplit. exists (String c first), others.
      split; [reflexivity|]. split; [cbn [contains]; rewrite Hc; exact Hfirst|].
      cbn [orb]. split; [|exact Hsome].
      intros Hrest. destruct (Hnone Hrest) as [-> ->]. split; reflexivity.
Qed.

Lemma list_ascii_of_string_app (s t : string) :
  String.list_ascii_of_string (s +:+ t)
  = String.list_ascii_of_string s ++ String.list_ascii_of_string t.
Proof. induction s as [|c s IH]; simpl; [reflexivity | rewrite IH; reflexivity]. Qed.

Lemma string_of_list_ascii_app (l1 l2 : list Ascii.ascii) :
  String.string_of_list_ascii (l1 ++ l2)
  = String.string_of_list_ascii l1 +:+ String.string_of_list_ascii l2.
Proof. induction l1 as [|c l IH]; simpl; [reflexivity | rewrite IH; reflexivity]. Qed.

Lemma string_append_assoc (a b c : string) : (a +:+ b) +:+ c = a +:+ (b +:+ c).
Proof.
  induction a as [|x a IH]; [reflexivity|].
  change (String x ((a +:+ b) +:+ c) = String x (a +:+ b +:+ c)). f_equal. exact IH.
Qed.

Lemma reverse_app (s t : string) : reverse (s +:+ t) = reverse t +:+ reverse s.
Proof.
  unfold reverse.
  rewrite list_ascii_of_string_app, rev_app_distr, string_of_list_ascii_app. reflexivity.
Qed.

Lemma reverse_involutive (s : string) : reverse (reverse s) = s.
Proof.
  unfold reverse.
  rewrite String.list_ascii_of_string_of_list_ascii, rev_involutive.
  apply String.string_of_list_ascii_of_string.
Qed.

Lemma rstrip_closing (s : string) : rstrip (s +:+ "}]->(to)") = s +:+ "}]->(to)".
Proof.
  unfold rstrip. rewrite reverse_app.
  change (reverse "}]->(to)") with ")ot(>-]}".
  change (lstrip (")ot(>-]}" +:+ reverse s)) with (")ot(>-]}" +:+ reverse s).
  rewrite reverse_app, reverse_involutive. reflexivity.
Qed.

End Dicts.

(** ** dtn3j.py: the queries *)

(** X15: the label of a node in its query is the text of the [label]
    attribute up to its first colon, and holds no colon itself; a label
    without a colon is used whole.  A node with no [label] attribute gets the
    empty label: the default 'Node' of line 58 is never used, because
    splitting never gives an empty list. *)
Theorem node_label_is_first_segment (attrs : DotToNeo4j.dict string) :
  let label := default "" (DotToNeo4j.dict_get attrs "label") in
  DotToNeo4j.contains DotToNeo4j.colon (DotToNeo4j.primary_label attrs) = false
  ∧ (∃ others, DotToNeo4j.split DotToNeo4j.colon label
               = DotToNeo4j.primary_label attrs :: others)
  ∧ (if DotToNeo4j.contains DotToNeo4j.colon label then True
     else DotToNeo4j.primary_label attrs = label)
  ∧ match DotToNeo4j.dict_get attrs "label" with
    | None => DotToNeo4j.primary_label attrs = ""
    | Some _ => True
    end.
Proof.
  intros label. unfold DotToNeo4j.primary_label. fold label.
  destruct (split_first DotToNeo4j.colon label)
    as (first & others & Hsplit & Hfirst & Hnone & _).
  rewrite Hsplit. split; [exact Hfirst|]. split; [eauto|]. split.
  - destruct (DotToNeo4j.contains DotToNeo4j.colon label) eqn:Hc; [exact I|].
    apply (Hnone eq_refl).
  - unfold label in *. destruct (DotToNeo4j.dict_get attrs "label"); [exact I|].
    simpl in Hsplit. injection Hsplit as <- _. reflexivity.
Qed.

(** X16: among the properties of a node in its query, [name] is always the
    node id, also when the DOT source gave the node a [name] attribute of
    its own, and [label] is never a property. *)
Theorem node_props_name_is_node_id node_id (attrs : DotToNeo4j.dict string) :
  DotToNeo4j.dict_get (DotToNeo4j.node_props node_id attrs) "name" = Some node_id
  ∧ DotToNeo4j.dict_get (DotToNeo4j.node_props node_id attrs) "label" = None.
Proof.
  unfold DotToNeo4j.node_props. split.
  - apply dict_get_set_eq.
  - rewrite dict_get_set_ne by discriminate. apply dict_get_without_label.
Qed.

Lemma drop_type_label_idempotent (attrs : DotToNeo4j.dict string) :
  DotToNeo4j.drop_type_label (DotToNeo4j.drop_type_label attrs)
  = DotToNeo4j.drop_type_label attrs.
Proof.
  destruct (DotToNeo4j.dict_get attrs "label") as [label|] eqn:Hlabel.
  - destruct (DotToNeo4j.contains DotToNeo4j.colon label) eqn:Hc.
    + assert (DotToNeo4j.drop_type_label attrs = DotToNeo4j.dict_del attrs "label") as ->
        by (unfold DotToNeo4j.drop_type_label; rewrite Hlabel, Hc; reflexivity).
      unfold DotToNeo4j.drop_type_label. rewrite dict_get_del. reflexivity.
    + assert (DotToNeo4j.drop_type_label attrs = attrs) as Hsame
        by (unfold DotToNeo4j.drop_type_label; rewrite Hlabel, Hc; reflexivity).
      rewrite !Hsame. reflexivity.
  - assert (DotToNeo4j.drop_type_label attrs = attrs) as Hsame
      by (unfold DotToNeo4j.drop_type_label; rewrite Hlabel; reflexivity).
    rewrite !Hsame. reflexivity.
Qed.

(** X17: [generate_cypher] changes the converter it reads from.  A node
    label that holds a colon is deleted from the stored attributes, so when
    the queries are generated a second time that node gets the empty label
    where the first generation gave the text before the colon; a second
    deletion finds nothing more to delete. *)
Theorem generation_forgets_type_label node_id (attrs : DotToNeo4j.dict string) label :
  DotToNeo4j.dict_get attrs "label" = Some label →
  DotToNeo4j.contains DotToNeo4j.colon label = true →
  let first := DotToNeo4j.node_query node_id attrs in
  let second := DotToNeo4j.node_query node_id first.2 in
  DotToNeo4j.dict_get first.2 "label" = None
  ∧ DotToNeo4j.primary_label first.2 = ""
  ∧ second.2 = first.2
  ∧ second.1 = "CREATE (: {" +:+ DotToNeo4j.render_props (DotToNeo4j.node_props node_id attrs)
               +:+ "})".
Proof.
  intros Hlabel Hcolon first second.
  assert (first.2 = DotToNeo4j.dict_del attrs "label") as Hstate.
  { unfold first, DotToNeo4j.node_query. simpl.
    unfold DotToNeo4j.drop_type_label. rewrite Hlabel, Hcolon. reflexivity. }
  assert (DotToNeo4j.dict_get first.2 "label" = None) as Hgone
    by (rewrite Hstate; apply dict_get_del).
  assert (DotToNeo4j.primary_label first.2 = "") as Hempty
    by (unfold DotToNeo4j.primary_label; rewrite Hgone; reflexivity).
  split; [exact Hgone|]. split; [exact Hempty|]. split.
  - unfold second, first, DotToNeo4j.node_query. simpl. apply drop_type_label_idempotent.
  - unfold second, DotToNeo4j.node_query. cbn [fst]. rewrite Hempty.
    unfold DotToNeo4j.node_props. unfold first, DotToNeo4j.node_query. cbn [snd].
    rewrite drop_type_label_idempotent. reflexivity.
Qed.

Lemma generation_forgets_type_label_witness :
  let attrs := [("label", "Person:Employee"); ("name", "John")] in
  let first := DotToNeo4j.node_query "A" attrs in
  DotToNeo4j.dict_get attrs "label" = Some "Person:Employee"
  ∧ first.1 = "CREATE (:Person {name: 'A'})"
  ∧ (DotToNeo4j.node_query "A" first.2).1 = "CREATE (: {name: 'A'})".
Proof.
  intros attrs first. split; [reflexivity|]. split; [reflexivity|].
  destruct (generation_forgets_type_label "A" attrs "Person:Employee" eq_refl eq_refl)
    as (_ & _ & _ & Hsecond).
  fold first in Hsecond. rewrite Hsecond. reflexivity.
Defined.

(** X18: the query of a relationship, after stripping, starts at MATCH and
    keeps the line break and the indentation before CREATE; it is built from
    the two node ids, the [label] attribute (RELATES_TO without one) and the
    other attributes.  The edge operator of the DOT source, [->] or [--],
    does not occur in it: every relationship is created directed from the
    first node to the second. *)
Theorem relationship_query_text from_node to_node rel_type (attrs : DotToNeo4j.dict string) :
  DotToNeo4j.relationship_query (from_node, to_node, rel_type, attrs)
  = "MATCH (from {name: '" +:+ from_node +:+ "'}), (to {name: '" +:+ to_node +:+ "'})"
    +:+ DotToNeo4j.newline +:+ DotToNeo4j.indent +:+ "CREATE (from)-[:"
    +:+ default "RELATES_TO" (DotToNeo4j.dict_get attrs "label") +:+ " {"
    +:+ DotToNeo4j.render_props (DotToNeo4j.without_label attrs) +:+ "}]->(to)".
Proof.
  unfold DotToNeo4j.relationship_query, DotToNeo4j.strip.
  rewrite !string_append_assoc.
  match goal with
  | |- DotToNeo4j.rstrip
         (DotToNeo4j.lstrip (DotToNeo4j.newline +:+ DotToNeo4j.indent +:+ ?m +:+ ?r)) = _ =>
      change (DotToNeo4j.lstrip (DotToNeo4j.newline +:+ DotToNeo4j.indent +:+ m +:+ r))
        with (m +:+ r)
  end.
  rewrite <- !string_append_assoc. apply rstrip_closing.
Qed.

(** X19: [generate_cypher] gives as many queries as there are nodes and
    relationships; it keeps the node ids and the relationships of the
    converter; and after one generation the converter no longer changes:
    generating again leaves it as it is and gives the same queries after
    those of the nodes. *)
Theorem generate_cypher_settles (self : DotToNeo4j.converter) :
  let once := DotToNeo4j.generate_cypher self in
  let twice := DotToNeo4j.generate_cypher once.2 in
  length once.1
  = (length (DotToNeo4j.nodes self) + length (DotToNeo4j.relationships self))%nat
  ∧ (DotToNeo4j.nodes once.2).*1 = (DotToNeo4j.nodes self).*1
  ∧ DotToNeo4j.relationships once.2 = DotToNeo4j.relationships self
  ∧ twice.2 = once.2
  ∧ drop (length (DotToNeo4j.nodes self)) twice.1
    = drop (length (DotToNeo4j.nodes self)) once.1.
Proof.
  intros once twice. unfold twice, once, DotToNeo4j.generate_cypher.
  cbn [fst snd DotToNeo4j.nodes DotToNeo4j.relationships].
  repeat split.
  - rewrite length_app, !length_fmap. reflexivity.
  - rewrite <- !list_fmap_compose. apply list_fmap_ext. intros i [k v] _. reflexivity.
  - f_equal. rewrite <- !list_fmap_compose. apply list_fmap_ext.
    intros i [k v] _. simpl. f_equal. apply drop_type_label_idempotent.
  - rewrite !drop_app_length'; [reflexivity | |]; rewrite !length_fmap; reflexivity.
Qed.
(** ** Failures end the loops *)

Lemma for_each_raises {A} (before after : list A) (body : A → M unit) w e w' :
  for_each before body w = (inl e, w') →
  for_each (before ++ after) body w = (inl e, w').
Proof.
  revert w. induction before as [|x rest IH]; intros w; simpl; [intros [=]|].
  unfold mbind, M_bind. destruct (body x w) as [[e0|u] w1]; [intros H; exact H|].
  apply IH.
Qed.

Lemma for_each_app {A} (before after : list A) (body : A → M unit) w w1 :
  for_each before body w = (inr (), w1) →
  for_each (before ++ after) body w = for_each after body w1.
Proof.
  revert w. induction before as [|x rest IH]; intros w; simpl.
  - intros [= <-]. reflexivity.
  - unfold mbind, M_bind. destruct (body x w) as [[e0|u] w2]; [intros [=]|].
    apply IH.
Qed.

(** ** How a task run ends *)

Lemma outcomes_app key tr1 tr2 :
  outcomes key (tr1 ++ tr2) = outcomes key tr1 ++ outcomes key tr2.
Proof. apply omap_app. Qed.

Lemma outcomes_none key tr :
  Forall (λ e, is_outcome e = false) tr → outcomes key tr = [].
Proof.
  induction 1 as [|e tr He _ IH]; [reflexivity|].
  unfold outcomes in *.
  change (omap (outcome_of key) (e :: tr))
    with (match outcome_of key e with
          | Some o => o :: omap (outcome_of key) tr
          | None => omap (outcome_of key) tr
          end).
  rewrite IH. destruct e; try reflexivity.
  simpl in *. rewrite He, andb_false_r. reflexivity.
Qed.

(** A run of a task adds, after events that end no run, the state the run
    ends in: [Completed] when it returns, [FailedState] when it raises. *)
Lemma run_attempts_outcome {A} opts args (body : M A) :
  emits (λ e, is_outcome e = false) body →
  ∀ retries_left run_count w,
    ∃ pre,
      trace (run_attempts opts args body retries_left run_count w).2
      = trace w ++ pre
        ++ [EvTask (task_key opts) args
              (match (run_attempts opts args body retries_left run_count w).1.1 with
               | inr _ => Completed
               | inl _ => FailedState
               end)]
      ∧ Forall (λ e, is_outcome e = false) pre.
Proof.
  intros Hb retries_left.
  induction retries_left as [|n IH]; intros run_count w; simpl;
    destruct (Hb (log (EvTask (task_key opts) args Running) w)) as (added & Heq & Hok);
    destruct (body _) as [[e|a] w1]; simpl in *;
    try (exists (EvTask (task_key opts) args Running :: added); split;
         [rewrite Heq, <- !app_assoc; reflexivity | constructor; [reflexivity | exact Hok]]).
  destruct (IH (S run_count)
              (log (EvTask (task_key opts) args (AwaitingRetry (retry_delay opts run_count)))
                 w1)) as (pre & Heq' & Hok').
  exists (EvTask (task_key opts) args Running :: added
          ++ EvTask (task_key opts) args (AwaitingRetry (retry_delay opts run_count)) :: pre).
  split.
  - rewrite Heq'. simpl. rewrite Heq. rewrite <- !app_assoc. reflexivity.
  - constructor; [reflexivity|]. apply Forall_app. split; [exact Hok|].
    constructor; [reflexivity | exact Hok'].
Qed.

Lemma run_task_outcome {A} opts args (body : M A) w :
  emits (λ e, is_outcome e = false) body →
  ∃ pre,
    trace (run_task opts args body w).2
    = trace w ++ pre
      ++ [EvTask (task_key opts) args
            (match (run_task opts args body w).1 with
             | inr _ => Completed
             | inl _ => FailedState
             end)]
    ∧ Forall (λ e, is_outcome e = false) pre.
Proof.
  intros Hb. unfold run_task.
  destruct (run_attempts_outcome opts args body Hb (retries opts) 1%nat w)
    as (pre & Heq & Hok).
  destruct (run_attempts _ _ _ _ _ _) as [[r n] w1]. exists pre. split; assumption.
Qed.

(** ** The batch loader *)

Lemma process_data_batch_metrics transform_batch batch_df table_config connector :
  returns (λ m, m = {| processed := len (transform_batch batch_df); errors := 0 |})
    (ComplexPipeline.process_data_batch transform_batch batch_df table_config connector).
Proof.
  unfold ComplexPipeline.process_data_batch.
  intros w m w'. unfold call_task. simpl. revert w m w'.
  apply returns_run_task.
  unfold ComplexPipeline.process_data_batch_body, ComplexPipeline.snowflake_connection.
  apply returns_bind. intros _. apply returns_try_finally, returns_try_except.
  - apply returns_bind. intros _. apply returns_bind. intros _.
    apply returns_ret. reflexivity.
  - intros e. apply returns_bind. intros _. apply returns_raise.
Qed.

Lemma process_data_batch_body_quiet transform_batch batch_df table_config connector :
  emits (λ e, is_outcome e = false)
    (ComplexPipeline.process_data_batch_body transform_batch batch_df table_config
       connector).
Proof.
  unfold ComplexPipeline.process_data_batch_body, ComplexPipeline.snowflake_connection,
    ComplexPipeline.upsert_to_snowflake, ComplexPipeline.emit_batch_metrics.
  emitting ltac:(reflexivity).
Qed.

(** One call of [process_data_batch] ends one run, and that is the last
    thing it does. *)
Lemma process_data_batch_outcome transform_batch batch config connector w :
  ∃ pre,
    trace (ComplexPipeline.process_data_batch transform_batch batch config connector w).2
    = trace w ++ pre
      ++ [EvTask "process_data_batch" (ArgsBatch batch config connector)
            (match (ComplexPipeline.process_data_batch transform_batch batch config
                      connector w).1 with
             | inr _ => Completed
             | inl _ => FailedState
             end)]
    ∧ Forall (λ e, is_outcome e = false) pre.
Proof.
  apply (run_task_outcome ComplexPipeline.process_data_batch_options
           (ArgsBatch batch config connector)).
  apply process_data_batch_body_quiet.
Qed.

(** The loading loop: the batches are loaded in order, and the first one
    that fails ends the loop. *)
Lemma load_loop_outcomes transform_batch config connector batches w :
  let completed := λ batch, (ArgsBatch batch config connector, Completed) in
  let run := for_each batches
               (λ batch, ComplexPipeline.process_data_batch transform_batch batch config
                           connector ;; mret ()) w in
  ∃ added,
    trace run.2 = trace w ++ added
    ∧ match run.1 with
      | inr _ => outcomes "process_data_batch" added = completed <$> batches
      | inl _ =>
          ∃ done failed rest,
            batches = done ++ failed :: rest
            ∧ outcomes "process_data_batch" added
              = (completed <$> done) ++ [(ArgsBatch failed config connector, FailedState)]
            ∧ last added
              = Some (EvTask "process_data_batch" (ArgsBatch failed config connector)
                        FailedState)
      end.
Proof.
  intros completed. revert w. induction batches as [|batch batches IH]; intros w; simpl.
  - exists []. split; [symmetry; apply app_nil_r | reflexivity].
  - unfold mbind, M_bind in *.
    destruct (process_data_batch_outcome transform_batch batch config connector w)
      as (pre & Heq & Hpre).
    destruct (ComplexPipeline.process_data_batch transform_batch batch config connector w)
      as [[e|m] w1]; simpl in *.
    + exists (pre ++ [EvTask "process_data_batch" (ArgsBatch batch config connector)
                        FailedState]).
      split; [exact Heq|].
      exists [], batch, batches. split; [reflexivity|]. split.
      * rewrite outcomes_app, (outcomes_none _ pre Hpre). reflexivity.
      * apply last_snoc.
    + destruct (IH w1) as (added & Heq1 & Hrun).
      exists ((pre ++ [EvTask "process_data_batch" (ArgsBatch batch config connector)
                         Completed]) ++ added).
      split; [rewrite Heq1, Heq, <- !app_assoc; reflexivity|].
      assert (outcomes "process_data_batch"
                (pre ++ [EvTask "process_data_batch" (ArgsBatch batch config connector)
                           Completed])
              = [completed batch]) as Hhead.
      { rewrite outcomes_app, (outcomes_none _ pre Hpre). reflexivity. }
      destruct (for_each batches _ w1) as [[e|u] w2]; simpl in *.
      * destruct Hrun as (done & failed & rest & Hsplit & Hout & Hlast).
        exists (batch :: done), failed, rest. split; [rewrite Hsplit; reflexivity|].
        split.
        -- rewrite outcomes_app, Hhead, Hout. reflexivity.
        -- destruct added as [|x added]; [discriminate Hlast|].
           rewrite last_app. rewrite Hlast. reflexivity.
      * rewrite outcomes_app, Hhead, Hrun. reflexivity.
Qed.
(** *** A full load in which nothing fails *)

Lemma process_data_batch_no_fault transform_batch batch config connector w :
  (∀ e n, fault w e n = false) →
  ∃ w',
    ComplexPipeline.process_data_batch transform_batch batch config connector w
    = (inr {| processed := len (transform_batch batch); errors := 0 |}, w')
    ∧ trace w' = trace w ++ batch_load_events transform_batch config connector batch
    ∧ fault w' = fault w.
Proof.
  intros Hfault.
  unfold ComplexPipeline.process_data_batch, call_task, run_task,
    ComplexPipeline.process_data_batch_body, ComplexPipeline.snowflake_connection,
    ComplexPipeline.upsert_to_snowflake, ComplexPipeline.emit_batch_metrics,
    try_finally, try_except, perform, mbind, M_bind, mret, M_ret.
  simpl. repeat (rewrite Hfault; simpl).
  eexists. split; [reflexivity|]. split; [|reflexivity].
  simpl. rewrite <- !app_assoc. reflexivity.
Qed.

Lemma load_loop_no_fault transform_batch config connector batches w :
  (∀ e n, fault w e n = false) →
  ∃ w',
    for_each batches
      (λ batch, ComplexPipeline.process_data_batch transform_batch batch config
                  connector ;; mret ()) w
    = (inr (), w')
    ∧ trace w'
      = trace w ++ concat (batch_load_events transform_batch config connector <$> batches)
    ∧ fault w' = fault w.
Proof.
  revert w. induction batches as [|batch batches IH]; intros w Hfault.
  - exists w. split; [reflexivity|]. split; [symmetry; apply app_nil_r | reflexivity].
  - destruct (process_data_batch_no_fault transform_batch batch config connector w Hfault)
      as (w1 & Hrun & Htrace & Hf1).
    destruct (IH w1) as (w2 & Hrest & Htrace2 & Hf2).
    { intros e n. rewrite Hf1. apply Hfault. }
    exists w2. split; [|split].
    + cbn [for_each]. unfold mbind, M_bind in *. rewrite Hrun. exact Hrest.
    + rewrite Htrace2, Htrace, fmap_cons. cbn [concat].
      rewrite <- !app_assoc. reflexivity.
    + rewrite Hf2. exact Hf1.
Qed.

Lemma chunk_frames_partition (table : DataFrame) (b : Z) :
  0 < b →
  let data_iterator := chunk_frames (Z.to_nat b) table in
  Z.of_nat (length data_iterator) = ceil_div (Z.of_nat (len table)) b
  ∧ Forall (λ batch, Z.of_nat (len batch) ≤ b) data_iterator
  ∧ concat (df_rows <$> data_iterator) = df_rows table
  ∧ Forall (λ batch, df_columns batch = df_columns table) data_iterator.
Proof.
  intros Hb. unfold chunk_frames, len. cbn zeta.
  assert (0 < Z.to_nat b)%nat as Hb' by lia.
  repeat split.
  - rewrite length_fmap, chunks_count by exact Hb'. rewrite Z2Nat.id by lia. reflexivity.
  - rewrite Forall_fmap. eapply Forall_impl; [apply chunks_bounded|].
    intros c Hc. simpl in *. lia.
  - rewrite <- list_fmap_compose.
    rewrite (list_fmap_ext _ id (chunks (Z.to_nat b) (df_rows table))) by reflexivity.
    rewrite list_fmap_id. apply chunks_concat, Hb'.
  - rewrite Forall_fmap. apply Forall_forall. intros c _. reflexivity.
Qed.

(** After the download of the object, the full load is the loading loop
    over the chunks of the object. *)
Lemma full_load_unfold transform_batch config connector s3_bucket w table :
  s3 w !! ComplexPipeline.source_path config = Some table →
  fault w (EvDownload s3_bucket (ComplexPipeline.source_path config)) (length (trace w))
  = false →
  ComplexPipeline.full_load transform_batch config connector s3_bucket w
  = for_each (chunk_frames (Z.to_nat (batch_size config)) table)
      (λ batch, ComplexPipeline.process_data_batch transform_batch batch config
                  connector ;; mret ())
      (log (EvDownload s3_bucket (ComplexPipeline.source_path config)) w).
Proof.
  intros Hs3 Hfault.
  unfold ComplexPipeline.full_load, ComplexPipeline.get_data_iterator, download_object,
    perform, inspect.
  unfold mbind, M_bind. rewrite Hfault.
  change (s3 (log (EvDownload s3_bucket (ComplexPipeline.source_path config)) w))
    with (s3 w).
  rewrite Hs3. reflexivity.
Qed.




(** *** A load in which a chunk fails *)

Lemma raises_full_load transform_batch config connector s3_bucket :
  raises task_failure
    (ComplexPipeline.full_load transform_batch config connector s3_bucket).
Proof.
  unfold ComplexPipeline.full_load, ComplexPipeline.get_data_iterator.
  apply raises_bind.
  { apply raises_bind; [apply raises_download_object; intros; exact I | intros t].
    apply raises_ret. }
  intros data_iterator. apply raises_for_each. intros batch.
  apply raises_bind; [apply raises_process_data_batch | intros _; apply raises_ret].
Qed.

Lemma load_loop_reports_no_error transform_batch config connector batches :
  emits (λ e, match e with EvEmitMetrics _ m => errors m = 0%nat | _ => True end)
    (for_each batches
       (λ batch, ComplexPipeline.process_data_batch transform_batch batch config
                   connector ;; mret ())).
Proof.
  unfold ComplexPipeline.process_data_batch, ComplexPipeline.process_data_batch_body,
    ComplexPipeline.snowflake_connection, ComplexPipeline.upsert_to_snowflake,
    ComplexPipeline.emit_batch_metrics.
  emitting_tasks ltac:(first [exact I | reflexivity]).
Qed.

Lemma metrics_emitted_no_error tr :
  Forall (λ e, match e with EvEmitMetrics _ m => errors m = 0%nat | _ => True end) tr →
  Forall (λ m, errors m = 0%nat) (metrics_emitted tr).
Proof.
  induction 1 as [|e tr He _ IH]; [constructor|].
  destruct e; try exact IH. constructor; [exact He | exact IH].
Qed.

(** C6 as the code has it.  When the full load of a landed object ends
    with an exception, that is the exception of a task (the [TypeError] of
    the handler, which raises a [State], or the error of the connection),
    not a summary; the chunks before the failed one have been loaded, in
    order; the end of the run of the failed chunk, after the retries of the
    task, is the last event of the load, so no chunk after it is attempted;
    and the row count that the handler writes to [metrics["errors"]] is in
    no metrics that are reported or returned: every metrics reported has
    [errors] 0, and a call that returns gives the row count of its own
    chunk as [processed] and 0 as [errors]. *)
Theorem failing_chunk_ends_load transform_batch config connector s3_bucket w table e w' :
  s3 w !! ComplexPipeline.source_path config = Some table →
  fault w (EvDownload s3_bucket (ComplexPipeline.source_path config)) (length (trace w))
  = false →
  ComplexPipeline.full_load transform_batch config connector s3_bucket w = (inl e, w') →
  task_failure e
  ∧ (∃ done failed rest added,
       chunk_frames (Z.to_nat (batch_size config)) table = done ++ failed :: rest
       ∧ trace w'
         = trace w ++ EvDownload s3_bucket (ComplexPipeline.source_path config) :: added
       ∧ outcomes "process_data_batch" added
         = ((λ batch, (ArgsBatch batch config connector, Completed)) <$> done)
           ++ [(ArgsBatch failed config connector, FailedState)]
       ∧ last added
         = Some (EvTask "process_data_batch" (ArgsBatch failed config connector)
                   FailedState)
       ∧ Forall (λ m, errors m = 0%nat) (metrics_emitted added))
  ∧ ∀ batch,
      returns (λ m, m = {| processed := len (transform_batch batch); errors := 0 |})
        (ComplexPipeline.process_data_batch transform_batch batch config connector).
Proof.
  intros Hs3 Hfault Hrun.
  split; [exact (raises_full_load _ _ _ _ _ _ _ Hrun)|].
  split; [|intros batch; apply process_data_batch_metrics].
  rewrite (full_load_unfold _ _ _ _ _ table Hs3 Hfault) in Hrun.
  set (w0 := log (EvDownload s3_bucket (ComplexPipeline.source_path config)) w) in *.
  destruct (load_loop_outcomes transform_batch config connector
              (chunk_frames (Z.to_nat (batch_size config)) table) w0)
    as (added & Htrace & Hout).
  destruct (load_loop_reports_no_error transform_batch config connector
              (chunk_frames (Z.to_nat (batch_size config)) table) w0)
    as (added' & Htrace' & Hok).
  rewrite Hrun in Htrace, Hout, Htrace'. cbn [fst snd] in *.
  assert (added' = added) as ->.
  { rewrite Htrace in Htrace'. apply app_inv_head in Htrace'. symmetry. exact Htrace'. }
  destruct Hout as (done & failed & rest & Hsplit & Houtcomes & Hlast).
  exists done, failed, rest, added.
  split; [exact Hsplit|]. split.
  { rewrite Htrace. subst w0. simpl. rewrite <- app_assoc. reflexivity. }
  split; [exact Houtcomes|]. split; [exact Hlast|].
  apply metrics_emitted_no_error, Hok.
Qed.

Lemma failing_chunk_ends_load_witness :
  let first := Scenario.products_frame [Scenario.product 1; Scenario.product 2] in
  let second := Scenario.products_frame [Scenario.product 3] in
  let run := ComplexPipeline.full_load id Scenario.products "snowflake-prod" "data-lake"
               Scenario.failing_chunk_world in
  chunk_frames 2 (Scenario.products_frame
                    [Scenario.product 1; Scenario.product 2; Scenario.product 3])
  = [first; second]
  ∧ run.1 = inl (TypeError "exceptions must derive from BaseException")
  ∧ upserts (trace run.2)
    = [("products", first); ("products", first); ("products", first); ("products", first)]
  ∧ logged "error" (trace run.2)
    = [ "Batch processing failed: external operation failed";
        "Batch processing failed: external operation failed";
        "Batch processing failed: external operation failed";
        "Batch processing failed: external operation failed" ]
  ∧ metrics_emitted (trace run.2) = []
  ∧ ∃ done failed rest added,
      [first; second] = done ++ failed :: rest
      ∧ trace run.2 = [] ++ EvDownload "data-lake" "raw/products" :: added
      ∧ outcomes "process_data_batch" added
        = ((λ batch, (ArgsBatch batch Scenario.products "snowflake-prod", Completed))
             <$> done)
          ++ [(ArgsBatch failed Scenario.products "snowflake-prod", FailedState)]
      ∧ last added
        = Some (EvTask "process_data_batch"
                  (ArgsBatch failed Scenario.products "snowflake-prod") FailedState).
Proof.
  intros first second run.
  split; [vm_compute; reflexivity|]. split; [vm_compute; reflexivity|].
  split; [vm_compute; reflexivity|]. split; [vm_compute; reflexivity|].
  split; [vm_compute; reflexivity|].
  destruct (failing_chunk_ends_load id Scenario.products "snowflake-prod" "data-lake"
              Scenario.failing_chunk_world
              (Scenario.products_frame
                 [Scenario.product 1; Scenario.product 2; Scenario.product 3])
              (TypeError "exceptions must derive from BaseException") run.2
              ltac:(vm_compute; reflexivity) ltac:(reflexivity)
              ltac:(vm_compute; reflexivity))
    as (_ & (done & failed & rest & added & Hsplit & Htrace & Hout & Hlast & _) & _).
  exists done, failed, rest, added.
  split; [exact Hsplit|]. split; [exact Htrace|]. split; [exact Hout | exact Hlast].
Defined.
(** ** A table that fails ends the run *)

Lemma logged_app level tr1 tr2 :
  logged level (tr1 ++ tr2) = logged level tr1 ++ logged level tr2.
Proof. apply omap_app. Qed.

Lemma logged_no_info tr :
  Forall (λ e, is_info e = false) tr → logged "info" tr = [].
Proof.
  induction 1 as [|e tr He _ IH]; [reflexivity|].
  unfold logged in *.
  destruct e; try exact IH. simpl in *. rewrite He. exact IH.
Qed.

Lemma validate_primary_keys_no_info df_sample pks v :
  emits (λ e, is_info e = false) (ComplexPipeline.validate_primary_keys df_sample pks v).
Proof.
  revert v. induction pks as [|pk rest IH]; intros v; simpl.
  - apply emits_ret.
  - destruct (column df_sample pk); [|apply emits_raise].
    destruct (existsb isnull _); [|apply IH].
    apply emits_bind; [apply emits_emit; reflexivity | intros _; apply IH].
Qed.

Lemma validate_source_data_no_info s3_path table_config s3_bucket :
  emits (λ e, is_info e = false)
    (ComplexPipeline.validate_source_data s3_path table_config s3_bucket).
Proof.
  pose proof validate_primary_keys_no_info as Hkeys.
  unfold ComplexPipeline.validate_source_data.
  apply emits_call_task; [intro; reflexivity|].
  unfold ComplexPipeline.validate_source_data_body, download_object,
    create_markdown_artifact.
  repeat first
    [ match goal with |- ∀ _, _ => intro end
    | apply Hkeys
    | apply emits_ret | apply emits_raise | apply emits_inspect
    | apply emits_bind | apply emits_try_except
    | apply emits_emit; reflexivity
    | apply emits_perform; reflexivity ].
Qed.

Lemma load_step_no_info transform_batch config connector s3_bucket :
  emits (λ e, is_info e = false)
    (ComplexPipeline.load_step transform_batch config connector s3_bucket).
Proof.
  unfold ComplexPipeline.load_step, ComplexPipeline.incremental_load_flow,
    ComplexPipeline.full_load, ComplexPipeline.get_last_processed_value,
    ComplexPipeline.load_incremental_data, ComplexPipeline.get_data_iterator,
    download_object, ComplexPipeline.process_data_batch,
    ComplexPipeline.process_data_batch_body, ComplexPipeline.snowflake_connection,
    ComplexPipeline.upsert_to_snowflake, ComplexPipeline.emit_batch_metrics.
  emitting_tasks ltac:(reflexivity).
Qed.

(** One turn of the loop logs the line of its table once, at its start,
    whatever becomes of the table. *)
Lemma process_config_logs transform_batch date connector s3_bucket config w :
  ∃ added,
    trace (ComplexPipeline.process_config transform_batch date connector s3_bucket
             config w).2
    = trace w ++ added
    ∧ logged "info" added = ["Processing " +:+ name config].
Proof.
  assert (emits (λ e, is_info e = false)
            (validation_results ← ComplexPipeline.validate_source_data
                                    ("raw/" ++ name config ++ "/" ++ date) config s3_bucket;
             ComplexPipeline.data_quality_flow config validation_results ;;
             if null_check_passed validation_results
             then ComplexPipeline.load_step transform_batch config connector s3_bucket
             else mret ())) as Hrest.
  { apply emits_bind; [apply validate_source_data_no_info | intros v].
    apply emits_bind.
    { unfold ComplexPipeline.data_quality_flow, create_markdown_artifact.
      emitting ltac:(reflexivity). }
    intros _. destruct (null_check_passed v); [apply load_step_no_info | apply emits_ret]. }
  unfold ComplexPipeline.process_config.
  unfold mbind at 1, M_bind at 1, emit.
  destruct (Hrest (log (EvLog "info" ("Processing " +:+ name config)) w))
    as (added & Heq & Hok).
  exists (EvLog "info" ("Processing " +:+ name config) :: added). split.
  - rewrite Heq. simpl. rewrite <- app_assoc. reflexivity.
  - change (EvLog "info" ("Processing " +:+ name config) :: added)
      with ([EvLog "info" ("Processing " +:+ name config)] ++ added).
    rewrite logged_app, (logged_no_info added Hok). reflexivity.
Qed.

Lemma main_flow_logs transform_batch configs date w w1 :
  ComplexPipeline.main_flow transform_batch configs date w = (inr (), w1) →
  ∃ added,
    trace w1 = trace w ++ added
    ∧ logged "info" added = (λ config, "Processing " +:+ name config) <$> configs.
Proof.
  unfold ComplexPipeline.main_flow. revert w.
  induction configs as [|config configs IH]; intros w; simpl.
  - intros [= <-]. exists []. split; [symmetry; apply app_nil_r | reflexivity].
  - unfold mbind at 1, M_bind at 1.
    destruct (process_config_logs transform_batch date "snowflake-prod" "data-lake"
                config w) as (a1 & Heq1 & Hlog1).
    destruct (ComplexPipeline.process_config _ _ _ _ config w) as [[e|u] w0];
      [intros [=]|].
    intros Hrest. destruct (IH w0 Hrest) as (a2 & Heq2 & Hlog2).
    exists (a1 ++ a2). split.
    + rewrite Heq2. simpl in Heq1. rewrite Heq1, <- app_assoc. reflexivity.
    + rewrite logged_app, Hlog1, Hlog2. reflexivity.
Qed.

(** C8 as the code has it: the loop of [main_flow] has no handler.  When
    the tables before a table have been processed and the pipeline of that
    table (validation, the quality flow and the load) ends with an
    exception, also that of a task that has exhausted its retries, the run
    ends there with that exception: what the run has done is what was done
    up to the failure, the lines "Processing ..." logged are those of the
    tables up to the failed one, so no later table configuration is
    processed, and the run gives an exception, not a per-table summary. *)
Theorem table_failure_aborts_run transform_batch (before after : list TableConfig)
    (config : TableConfig) date w w1 e w2 :
  ComplexPipeline.main_flow transform_batch before date w = (inr (), w1) →
  ComplexPipeline.process_config transform_batch date "snowflake-prod" "data-lake"
    config w1 = (inl e, w2) →
  ComplexPipeline.main_flow transform_batch (before ++ config :: after) date w
  = (inl e, w2)
  ∧ ∃ added,
      trace w2 = trace w ++ added
      ∧ logged "info" added
        = (λ config, "Processing " +:+ name config) <$> (before ++ [config]).
Proof.
  intros Hbefore Hconfig. split.
  - unfold ComplexPipeline.main_flow in *.
    rewrite (for_each_app before (config :: after) _ w w1 Hbefore).
    cbn [for_each]. unfold mbind at 1, M_bind at 1. rewrite Hconfig. reflexivity.
  - destruct (main_flow_logs _ _ _ _ _ Hbefore) as (a1 & Heq1 & Hlog1).
    destruct (process_config_logs transform_batch date "snowflake-prod" "data-lake"
                config w1) as (a2 & Heq2 & Hlog2).
    rewrite Hconfig in Heq2. cbn [snd] in Heq2.
    exists (a1 ++ a2). split.
    + rewrite Heq2, Heq1, <- app_assoc. reflexivity.
    + rewrite logged_app, Hlog1, Hlog2, fmap_app. reflexivity.
Qed.

Lemma table_failure_aborts_run_witness :
  let r := ComplexPipeline.process_config id "2024/01/04" "snowflake-prod" "data-lake"
             Scenario.products Scenario.missing_object_world in
  r.1 = inl (TypeError "exceptions must derive from BaseException")
  ∧ task_states "validate_source_data" (trace r.2)
    = [ ("products", Running); ("products", AwaitingRetry 30);
        ("products", Running); ("products", AwaitingRetry 60);
        ("products", Running); ("products", AwaitingRetry 120);
        ("products", Running); ("products", FailedState) ]
  ∧ ComplexPipeline.main_flow id [Scenario.products; Scenario.sales] "2024/01/04"
      Scenario.missing_object_world
    = (inl (TypeError "exceptions must derive from BaseException"), r.2)
  ∧ ∃ added,
      trace r.2 = [] ++ added
      ∧ logged "info" added = ["Processing products"].
Proof.
  intros r. split; [vm_compute; reflexivity|]. split; [vm_compute; reflexivity|].
  apply (table_failure_aborts_run id [] [Scenario.sales] Scenario.products "2024/01/04"
           Scenario.missing_object_world Scenario.missing_object_world).
  - reflexivity.
  - vm_compute. reflexivity.
Defined.

(** Against C8 as stated: with nothing landed for the first table, its
    validation fails four times, the run ends with the exception of the
    task, and the second table, whose data is there, is never looked at. *)
Lemma run_stops_at_failed_table :
  let r := ComplexPipeline.main_flow id [Scenario.products; Scenario.sales] "2024/01/04"
             Scenario.missing_object_world in
  r.1 = inl (TypeError "exceptions must derive from BaseException")
  ∧ logged "info" (trace r.2) = ["Processing products"]
  ∧ logged "error" (trace r.2)
    = [ "Validation failed: no such object: raw/products/2024/01/04";
        "Validation failed: no such object: raw/products/2024/01/04";
        "Validation failed: no such object: raw/products/2024/01/04";
        "Validation failed: no such object: raw/products/2024/01/04" ]
  ∧ downloads (trace r.2)
    = [ "raw/products/2024/01/04"; "raw/products/2024/01/04";
        "raw/products/2024/01/04"; "raw/products/2024/01/04" ].
Proof. vm_compute. repeat split; reflexivity. Qed.
(** ** The dimensional model build *)

(** A task that is not cached starts by entering the [Running] state:
    that is the first event it adds. *)
Lemma run_task_first {A} opts args (body : M A) w :
  (∀ P, log_stable P → preserves P body) →
  ∃ rest, trace (run_task opts args body w).2
          = trace w ++ EvTask (task_key opts) args Running :: rest.
Proof.
  intros Hbody. unfold run_task.
  set (P := λ x, ∃ rest, trace x = trace w ++ EvTask (task_key opts) args Running :: rest).
  assert (log_stable P) as HP.
  { intros e x (rest & Hx). exists (rest ++ [e]). simpl. rewrite Hx.
    rewrite <- app_assoc. reflexivity. }
  assert (P (log (EvTask (task_key opts) args Running) w)) as Hstart.
  { exists []. reflexivity. }
  assert (P (run_attempts opts args body (retries opts) 1 w).2) as Hgoal.
  { destruct (retries opts) as [|n]; simpl;
      pose proof (Hbody P HP _ Hstart) as H1;
      destruct (body _) as [[e|a] w1]; simpl in *; try (apply HP, H1).
    apply (preserves_run_attempts P HP opts args body (Hbody P HP)), HP, H1. }
  destruct (run_attempts _ _ _ _ _ _) as [[r n] w1]. exact Hgoal.
Qed.

Lemma create_dimension_tables_no_fact connector :
  emits (λ e, fact_load_event e = false) (EtlPipeline.create_dimension_tables connector).
Proof.
  unfold EtlPipeline.create_dimension_tables.
  apply emits_call_task; [intro; reflexivity|].
  unfold EtlPipeline.get_connection, EtlPipeline.execute.
  apply emits_bind; [apply emits_perform; reflexivity | intros _].
  apply emits_try_finally; [|apply emits_perform; reflexivity].
  apply emits_for_each_in. intros entry Hin. apply emits_perform.
  unfold EtlPipeline.DIM_FACT_DDLS in Hin.
  repeat (apply elem_of_cons in Hin as [->|Hin]; [reflexivity|]).
  inversion Hin.
Qed.

Lemma load_dimension_table_no_fact connector table_name transformation_query :
  String.eqb table_name "FACT_SALES" = false →
  String.eqb (insert_into transformation_query) "FACT_SALES" = false →
  emits (λ e, fact_load_event e = false)
    (EtlPipeline.load_dimension_table connector table_name transformation_query).
Proof.
  intros Htable Hinto. unfold EtlPipeline.load_dimension_table.
  apply emits_call_task; [intro; reflexivity|].
  unfold EtlPipeline.load_dimension_table_body, EtlPipeline.get_connection,
    EtlPipeline.execute.
  apply emits_bind; [apply emits_perform; reflexivity | intros _].
  apply emits_try_finally; [|apply emits_perform; reflexivity].
  apply emits_bind; [apply emits_perform; exact Htable | intros _].
  apply emits_perform. exact Hinto.
Qed.

(** C1 as the code has it: in every run of the dimensional model build in
    which [create_dimension_tables] succeeds, and under every schedule of
    the task runner, the fact load starts only after the three dimension
    loads have been submitted: the run of [load_fact_sales] enters the
    [Running] state, and before that event the run has submitted the three
    dimension loads, in the order of [dim_transforms], and has added no
    event of the fact load, neither a state of its task run nor a statement
    that empties or fills [FACT_SALES].  The fact load starts whatever
    becomes of the dimension loads: there is no check of their outcome and
    no dependency error.  By the end of the run every submitted dimension
    load has finished, and if one of them failed the run ends in
    failure. *)
Theorem fact_load_follows_submission connector schedule w w1 :
  EtlPipeline.create_dimension_tables connector w = (inr (), w1) →
  let run := EtlPipeline.run_flow (EtlPipeline.load_dimensional_model_flow connector)
               schedule w in
  let dims := (λ entry, ArgsDimension connector entry.1 entry.2)
                <$> EtlPipeline.dim_transforms in
  (∃ before after,
     trace run.2
     = trace w ++ before
       ++ EvTask "load_fact_sales" (ArgsConnector connector) Running :: after
     ∧ Forall (λ e, fact_load_event e = false) before
     ∧ (EvSubmit "load_dimension_table" <$> dims) `sublist_of` before)
  ∧ EtlPipeline.future_args <$> run.1.2 = dims
  ∧ Forall (λ f, EtlPipeline.future_result f ≠ None) run.1.2
  ∧ (∀ f e, f ∈ run.1.2 → EtlPipeline.future_result f = Some (inl e) →
            ∃ e', run.1.1 = inl e').
Proof.
  intros Hcreate run dims.
  set (ok := λ e, fact_load_event e = false).
  destruct (create_dimension_tables_no_fact connector w) as (a0 & Heq0 & Hok0).
  rewrite Hcreate in Heq0. cbn [snd] in Heq0.
  destruct run as [[r pool] w'] eqn:Hrun. subst run. cbn [fst snd].
  unfold EtlPipeline.run_flow, EtlPipeline.load_dimensional_model_flow in Hrun.
  cbn [fmap list_fmap EtlPipeline.dim_transforms app fst snd
       EtlPipeline.run_statements] in Hrun.
  rewrite run_futures_nil, Hcreate, run_futures_nil in Hrun. cbn [app] in Hrun.
  (* the three submissions, each followed by what the task runner does *)
  match type of Hrun with
  | context [EtlPipeline.run_futures (hd [] (tail (tail schedule))) ?p ?x] =>
      pose proof (run_futures_emits ok (hd [] (tail (tail schedule))) p x w
                    (a0 ++ [EvSubmit "load_dimension_table"
                              (ArgsDimension connector "DIM_PRODUCTS"
                                 {| insert_into := "DIM_PRODUCTS";
                                    select_from := [RawTable "PRODUCTS"] |})])) as He2
  end.
  destruct (EtlPipeline.run_futures (hd [] (tail (tail schedule))) _ _)
    as [p2 b1] eqn:H2.
  destruct He2 as (Hp2 & a1 & Heq1 & Hok1).
  { repeat constructor. apply load_dimension_table_no_fact; reflexivity. }
  { simpl. rewrite Heq0, <- app_assoc. reflexivity. }
  { apply Forall_app. split; [exact Hok0 | repeat constructor]. }
  cbn [fst snd] in Hp2, Heq1.
  match type of Hrun with
  | context [EtlPipeline.run_futures (hd [] (tail (tail (tail schedule)))) ?p ?x] =>
      pose proof (run_futures_emits ok (hd [] (tail (tail (tail schedule)))) p x w
                    (a1 ++ [EvSubmit "load_dimension_table"
                              (ArgsDimension connector "DIM_LOCATIONS"
                                 {| insert_into := "DIM_LOCATIONS";
                                    select_from := [RawTable "LOCATIONS"] |})])) as He3
  end.
  destruct (EtlPipeline.run_futures (hd [] (tail (tail (tail schedule)))) _ _)
    as [p3 b2] eqn:H3.
  destruct He3 as (Hp3 & a2 & Heq2 & Hok2).
  { apply Forall_app. split; [exact Hp2|].
    repeat constructor. apply load_dimension_table_no_fact; reflexivity. }
  { simpl. rewrite Heq1, <- app_assoc. reflexivity. }
  { apply Forall_app. split; [exact Hok1 | repeat constructor]. }
  cbn [fst snd] in Hp3, Heq2.
  match type of Hrun with
  | context [EtlPipeline.run_futures (hd [] (tail (tail (tail (tail schedule))))) ?p ?x] =>
      pose proof (run_futures_emits ok (hd [] (tail (tail (tail (tail schedule))))) p x w
                    (a2 ++ [EvSubmit "load_dimension_table"
                              (ArgsDimension connector "DIM_CUSTOMERS"
                                 {| insert_into := "DIM_CUSTOMERS";
                                    select_from := [RawTable "CUSTOMERS"] |})])) as He4
  end.
  destruct (EtlPipeline.run_futures (hd [] (tail (tail (tail (tail schedule))))) _ _)
    as [p4 b3] eqn:H4.
  destruct He4 as (Hp4 & a3 & Heq3 & Hok3).
  { apply Forall_app. split; [exact Hp3|].
    repeat constructor. apply load_dimension_table_no_fact; reflexivity. }
  { simpl. rewrite Heq2, <- app_assoc. reflexivity. }
  { apply Forall_app. split; [exact Hok2 | repeat constructor]. }
  cbn [fst snd] in Hp4, Heq3.
  (* the fact load *)
  destruct (run_task_first EtlPipeline.load_fact_sales_options
              (ArgsConnector connector) (EtlPipeline.load_fact_sales_body connector) b3
              (λ P HP, preserves_load_fact_sales_body P HP connector)) as (rest & Hfact).
  change (run_task EtlPipeline.load_fact_sales_options (ArgsConnector connector)
            (EtlPipeline.load_fact_sales_body connector) b3)
    with (EtlPipeline.load_fact_sales connector b3) in Hfact.
  assert (∃ r0, (let (s1, w7) := EtlPipeline.load_fact_sales connector b3 in
                 match s1 with
                 | inl e => (inl e, p4, w7)
                 | inr _ => (inr (), p4, w7)
                 end)
                = (r0, p4, (EtlPipeline.load_fact_sales connector b3).2)) as [r0 Hr0].
  { destruct (EtlPipeline.load_fact_sales connector b3) as [[e|u] c1];
      eexists; reflexivity. }
  rewrite Hr0 in Hrun. clear Hr0.
  set (c1 := (EtlPipeline.load_fact_sales connector b3).2) in *.
  destruct (EtlPipeline.run_futures (seq 0 (length p4)) p4 c1) as [p5 w5] eqn:H5.
  injection Hrun as <- <- <-.
  assert (pool_ok []) as Hnil by constructor.
  destruct (run_futures_spec _ _ _ _ _ H2 (pool_ok_snoc _ _ _ _ _ Hnil))
    as (Hok2' & Hargs2 & Hw2 & _).
  destruct (run_futures_spec _ _ _ _ _ H3 (pool_ok_snoc _ _ _ _ _ Hok2'))
    as (Hok3' & Hargs3 & Hw3 & _).
  destruct (run_futures_spec _ _ _ _ _ H4 (pool_ok_snoc _ _ _ _ _ Hok3'))
    as (Hok4' & Hargs4 & Hw4 & _).
  destruct (run_futures_spec _ _ _ _ _ H5 Hok4') as (Hok5' & Hargs5 & Hw5 & _).
  split; [|split; [|split]].
  - assert (in_order (EvSubmit "load_dimension_table" <$> dims) w b3) as (a3' & Heq3' & Hsub).
    { change (EvSubmit "load_dimension_table" <$> dims)
        with ([] ++ (EvSubmit "load_dimension_table" <$> dims)).
      eapply in_order_app.
      { exists a0. split; [exact Heq0 | apply sublist_nil_l]. }
      apply (Hw4 _ (in_order_log_stable _ _)).
      apply (in_order_snoc [_; _]).
      apply (Hw3 _ (in_order_log_stable _ _)).
      apply (in_order_snoc [_]).
      apply (Hw2 _ (in_order_log_stable _ _)).
      apply in_order_log. }
    assert (a3' = a3) as ->.
    { rewrite Heq3 in Heq3'. apply app_inv_head in Heq3'. symmetry. exact Heq3'. }
    assert (∃ more, trace w5 = trace c1 ++ more) as (more & Hmore).
    { apply (Hw5 (λ x, ∃ more, trace x = trace c1 ++ more)).
      - intros e x (more & Hx). exists (more ++ [e]). simpl. rewrite Hx.
        rewrite <- app_assoc. reflexivity.
      - exists []. symmetry. apply app_nil_r. }
    exists a3, (rest ++ more). split; [|split; [exact Hok3 | exact Hsub]].
    rewrite Hmore, Hfact, Heq3. rewrite <- !app_assoc. reflexivity.
  - rewrite Hargs5, Hargs4, fmap_app, Hargs3, fmap_app, Hargs2. reflexivity.
  - eapply run_futures_all; [exact H5 | exact Hok4'].
  - intros f e Hin Hres. eapply final_state_failed; [exact Hin | exact Hres].
Qed.

Lemma fact_load_follows_submission_witness :
  let run := EtlPipeline.run_flow
               (EtlPipeline.load_dimensional_model_flow "snowflake-demo")
               Scenario.dimensions_first Scenario.locations_down_world in
  let dims := (λ entry, ArgsDimension "snowflake-demo" entry.1 entry.2)
                <$> EtlPipeline.dim_transforms in
  (EtlPipeline.create_dimension_tables "snowflake-demo" Scenario.locations_down_world).1
  = inr ()
  ∧ (∃ before after,
       trace run.2
       = [] ++ before
         ++ EvTask "load_fact_sales" (ArgsConnector "snowflake-demo") Running :: after
       ∧ Forall (λ e, fact_load_event e = false) before
       ∧ (EvSubmit "load_dimension_table" <$> dims) `sublist_of` before)
  ∧ EtlPipeline.future_args <$> run.1.2 = dims
  ∧ Forall (λ f, EtlPipeline.future_result f ≠ None) run.1.2.
Proof.
  intros run dims. split; [vm_compute; reflexivity|].
  pose proof (fact_load_follows_submission "snowflake-demo" Scenario.dimensions_first
                Scenario.locations_down_world
                (EtlPipeline.create_dimension_tables "snowflake-demo"
                   Scenario.locations_down_world).2
                ltac:(vm_compute; reflexivity)) as (Horder & Hargs & Hdone & _).
  split; [exact Horder|]. split; [exact Hargs | exact Hdone].
Defined.

(** Against C1 as stated: with every statement on [DIM_LOCATIONS] failing,
    and the task runner finishing the three dimension loads before the flow
    reaches the fact load, the load of [DIM_LOCATIONS] fails after four
    attempts, and the fact load runs all the same: [FACT_SALES] is
    truncated and filled from the join.  The run ends with the error of the
    warehouse, which names no dimension. *)
Lemma fact_load_runs_after_failed_dimension :
  let run := EtlPipeline.run_flow
               (EtlPipeline.load_dimensional_model_flow "snowflake-demo")
               Scenario.dimensions_first Scenario.locations_down_world in
  let analytics := Truncate "ANALYTICS_DB" "ANALYTICS" in
  task_states "load_dimension_table" (trace run.2)
  = [ ("DIM_PRODUCTS", Running); ("DIM_PRODUCTS", Completed);
      ("DIM_LOCATIONS", Running); ("DIM_LOCATIONS", AwaitingRetry 0);
      ("DIM_LOCATIONS", Running); ("DIM_LOCATIONS", AwaitingRetry 0);
      ("DIM_LOCATIONS", Running); ("DIM_LOCATIONS", AwaitingRetry 0);
      ("DIM_LOCATIONS", Running); ("DIM_LOCATIONS", FailedState);
      ("DIM_CUSTOMERS", Running); ("DIM_CUSTOMERS", Completed) ]
  ∧ task_states "load_fact_sales" (trace run.2)
    = [ ("snowflake-demo", Running); ("snowflake-demo", Completed) ]
  ∧ drop 13 (executed (trace run.2))
    = [ analytics "FACT_SALES";
        format_query EtlPipeline.fact_sales_query
          "RAW_DB" "RAW" "ANALYTICS_DB" "ANALYTICS" ]
  ∧ run.1.1 = inl (InfraError "external operation failed").
Proof. vm_compute. repeat split; reflexivity. Qed.
